(** * Canteen ordering system: cart, pricing strategies, order status,
      observers and in-memory repositories

    A shallow embedding of the domain core of [index.js].  JavaScript numbers
    are IEEE-754 binary64 values, modelled by Rocq's primitive [float]; ids
    and statuses are strings; arrays are lists; an object that the program
    compares by identity (an observer) carries its reference.  A method that
    mutates [this] takes the receiver's state and returns the new one; a
    method that can [throw] returns a [completion]. *)

From Stdlib Require Import Floats ZArith.
From stdpp Require Import list strings pretty.

Set Warnings "-inexact-float".

(** ** JavaScript runtime notions *)

(** The outcome of evaluating a call: a value, or [throw new Error(message)]. *)
Inductive completion (A : Type) : Type :=
| Normal (a : A)
| Throw (message : string).
Arguments Normal {A} a.
Arguments Throw {A} message.

Module JsArray.
Section Ops.
Context {A : Type}.

(** [l.find(p)]: the first element satisfying [p], [undefined] ([None]) if none. *)
Definition find (P : A → Prop) `{!∀ x, Decision (P x)} (l : list A) : option A :=
  snd <$> list_find P l.

(** [l.findIndex(p)]: the index of the first element satisfying [p], -1 if none. *)
Definition findIndex (P : A → Prop) `{!∀ x, Decision (P x)} (l : list A) : Z :=
  match list_find P l with
  | Some (i, _) => Z.of_nat i
  | None => (-1)%Z
  end.

(** [l.indexOf(x)] with strict equality. *)
Definition indexOf `{!EqDecision A} (l : list A) (x : A) : Z :=
  findIndex (λ y, y = x) l.

(** [l.push(x)]. *)
Definition push (l : list A) (x : A) : list A := l ++ [x].

End Ops.
End JsArray.

(** ** Enumerations *)

Module Role.
Definition STUDENT : string := "STUDENT".
Definition STAFF : string := "STAFF".
End Role.

Module OrderStatus.
Definition RECEIVED : string := "RECEIVED".
Definition PREPARING : string := "PREPARING".
Definition READY : string := "READY".
Definition PICKED_UP : string := "PICKED_UP".
End OrderStatus.

(** ** Domain classes *)

Module User.
Record t := mk { id : string; name : string; role : string }.
End User.

Module MenuItem.
Record t := mk {
  id : string;
  name : string;
  price : float;
  category : string;
  tags : list string;
  available : bool
}.
End MenuItem.

Module CartItem.
Record t := mk { menuItemId : string; quantity : float }.
End CartItem.

Module Cart.
Record t := mk { items : list CartItem.t }.

(** [constructor()] *)
Definition new : t := mk [].

(** [addItem(menuItemId, qty)]; a caller that leaves [qty] out passes 1.
    [existing.quantity += qty] mutates the cart item found, which sits at
    the index of the first match. *)
Definition addItem (menuItemId : string) (qty : float) (this : t) : t :=
  if (qty <=? 0)%float then this
  else
    match list_find (λ ci, CartItem.menuItemId ci = menuItemId) (items this) with
    | Some (i, existing) =>
        mk (<[i := CartItem.mk (CartItem.menuItemId existing)
                               (CartItem.quantity existing + qty)%float]> (items this))
    | None => mk (JsArray.push (items this) (CartItem.mk menuItemId qty))
    end.

(** [removeItem(menuItemId)] *)
Definition removeItem (menuItemId : string) (this : t) : t :=
  mk (filter (λ ci, CartItem.menuItemId ci ≠ menuItemId) (items this)).

(** [getItems()]: a copy of the array. *)
Definition getItems (this : t) : list CartItem.t := items this.

(** [clear()] *)
Definition clear (this : t) : t := mk [].
End Cart.

(** ** Strategy pattern *)

(** An object of the [PricingStrategy] family, seen through its one method. *)
Record pricing := { pricing_computeTotal : list CartItem.t → list MenuItem.t → completion float }.

Module PricingStrategy.
(** The base class: [computeTotal(_items, _menu)] throws. *)
Definition computeTotal (_items : list CartItem.t) (_menu : list MenuItem.t) : completion float :=
  Throw "computeTotal must be implemented".

Definition new : pricing := {| pricing_computeTotal := computeTotal |}.
End PricingStrategy.

Module SimplePricingStrategy.
(** One iteration of the [for (const ci of items)] loop, on the running [total]. *)
Definition step (menu : list MenuItem.t) (total : float) (ci : CartItem.t) : float :=
  match JsArray.find (λ m, MenuItem.id m = CartItem.menuItemId ci) menu with
  | Some mi =>
      if MenuItem.available mi
      then (total + MenuItem.price mi * CartItem.quantity ci)%float
      else total
  | None => total
  end.

Definition computeTotal (items : list CartItem.t) (menu : list MenuItem.t) : completion float :=
  Normal (foldl (step menu) 0%float items).

Definition new : pricing := {| pricing_computeTotal := computeTotal |}.
End SimplePricingStrategy.

Module ComboPricingStrategy.
(** One iteration of the loop, on the pair [(total, qtySum)]. *)
Definition step (menu : list MenuItem.t) (acc : float * float) (ci : CartItem.t) : float * float :=
  let '(total, qtySum) := acc in
  match JsArray.find (λ m, MenuItem.id m = CartItem.menuItemId ci) menu with
  | Some mi =>
      if MenuItem.available mi
      then ((total + MenuItem.price mi * CartItem.quantity ci)%float,
            (qtySum + CartItem.quantity ci)%float)
      else (total, qtySum)
  | None => (total, qtySum)
  end.

(** The state [(total, qtySum)] when the loop ends. *)
Definition loop (items : list CartItem.t) (menu : list MenuItem.t) : float * float :=
  foldl (step menu) (0%float, 0%float) items.

Definition computeTotal (items : list CartItem.t) (menu : list MenuItem.t) : completion float :=
  let '(total, qtySum) := loop items menu in
  Normal (if (3 <=? qtySum)%float then (total * 0.9)%float else total).

Definition new : pricing := {| pricing_computeTotal := computeTotal |}.
End ComboPricingStrategy.

(** ** Orders *)

Module Order.
Record t := mk {
  id : string;
  userId : string;
  items : list CartItem.t;
  status : string;
  pickupTime : Z;
  total : float
}.

Definition with_status (s : string) (this : t) : t :=
  mk (id this) (userId this) (items this) s (pickupTime this) (total this).



Definition flow : list string :=
  [OrderStatus.RECEIVED; OrderStatus.PREPARING; OrderStatus.READY; OrderStatus.PICKED_UP].

(** [advanceStatus()].  Under the guard [flow[idx + 1]] is in range; were it
    not, the lookup would give [undefined], which no status string stands
    for, and the model leaves the order as it is. *)
Definition advanceStatus (this : t) : t :=
  let idx := JsArray.indexOf flow (status this) in
  if ((0 <=? idx) && (idx <? Z.of_nat (length flow) - 1))%Z
  then
    match flow !! Z.to_nat (idx + 1) with
    | Some s => with_status s this
    | None => this
    end
  else this.
End Order.

(** ** Observer pattern *)

Section Observers.
(** The state that observers act on (the page, the console, ...). *)
Context {W : Type}.

(** An observer object: its reference (objects are compared by identity)
    and its [onStatusChanged] method, which may change the world and may
    throw.  The world does not hold the subject's own array: a handler that
    attached or detached observers while [notify] runs is outside the model. *)
Record observer := {
  ref : nat;
  onStatusChanged : string → string → W → completion unit * W
}.

(** The base class [OrderObserver]: [onStatusChanged] has an empty body. *)
Definition OrderObserver_onStatusChanged (_orderId _status : string) (w : W)
  : completion unit * W :=
  (Normal tt, w).

Definition OrderObserver_new (r : nat) : observer :=
  {| ref := r; onStatusChanged := OrderObserver_onStatusChanged |}.

Record OrderSubject := { observers : list observer }.

Definition OrderSubject_new : OrderSubject := {| observers := [] |}.

(** [this.observers.includes(observer)] *)
Definition includes (l : list observer) (o : observer) : bool :=
  bool_decide (ref o ∈ ref <$> l).

Definition attach (o : observer) (this : OrderSubject) : OrderSubject :=
  if negb (includes (observers this) o)
  then {| observers := JsArray.push (observers this) o |}
  else this.

Definition detach (o : observer) (this : OrderSubject) : OrderSubject :=
  {| observers := filter (λ x, ref x ≠ ref o) (observers this) |}.

(** One call [o.onStatusChanged(orderId, status)] as it appears in a trace:
    the receiver's reference and the two arguments. *)
Definition call : Type := nat * string * string.

Definition call_on (orderId status : string) (o : observer) : call :=
  (ref o, orderId, status).

(** The [for (const o of this.observers)] loop of [notify].  The first
    component is the trace of the [onStatusChanged] calls made, in the
    order they were made; a call that throws ends the loop and the
    exception propagates. *)
Fixpoint notify_loop (obs : list observer) (orderId status : string) (w : W)
  : list call * (completion unit * W) :=
  match obs with
  | [] => ([], (Normal tt, w))
  | o :: rest =>
      match onStatusChanged o orderId status w with
      | (Normal _, w') =>
          let '(calls, r) := notify_loop rest orderId status w' in
          (call_on orderId status o :: calls, r)
      | (Throw e, w') => ([call_on orderId status o], (Throw e, w'))
      end
  end.

Definition notify (orderId status : string) (this : OrderSubject) (w : W)
  : list call * (completion unit * W) :=
  notify_loop (observers this) orderId status w.

End Observers.
Arguments observer W : clear implicits.
Arguments OrderSubject W : clear implicits.

(** ** Repositories *)

Module MenuRepository.
(** The base class: every method throws. *)
Definition findAll : completion (list MenuItem.t) := Throw "Not implemented".
Definition findById (_id : string) : completion (option MenuItem.t) := Throw "Not implemented".
Definition save (_item : MenuItem.t) : completion unit := Throw "Not implemented".
Definition toggleAvailability (_id : string) (_available : bool) : completion unit :=
  Throw "Not implemented".
End MenuRepository.

Module OrderRepository.
Definition save (_order : Order.t) : completion unit := Throw "Not implemented".
Definition findById (_id : string) : completion (option Order.t) := Throw "Not implemented".
Definition findByStatus (_status : string) : completion (list Order.t) := Throw "Not implemented".
Definition updateStatus (_id _status : string) : completion unit := Throw "Not implemented".
End OrderRepository.

Module SqliteMenuRepository.
Record t := mk { _items : list MenuItem.t }.

Definition new (seed : list MenuItem.t) : t := mk seed.

Definition findAll (this : t) : list MenuItem.t := _items this.

Definition findById (id : string) (this : t) : option MenuItem.t :=
  JsArray.find (λ m, MenuItem.id m = id) (_items this).

Definition save (item : MenuItem.t) (this : t) : t :=
  let idx := JsArray.findIndex (λ m, MenuItem.id m = MenuItem.id item) (_items this) in
  if (0 <=? idx)%Z
  then mk (<[Z.to_nat idx := item]> (_items this))
  else mk (JsArray.push (_items this) item).

Definition set_available (available : bool) (m : MenuItem.t) : MenuItem.t :=
  MenuItem.mk (MenuItem.id m) (MenuItem.name m) (MenuItem.price m)
              (MenuItem.category m) (MenuItem.tags m) available.

Definition toggleAvailability (id : string) (available : bool) (this : t) : t :=
  match list_find (λ m, MenuItem.id m = id) (_items this) with
  | Some (i, _) => mk (alter (set_available available) i (_items this))
  | None => this
  end.
End SqliteMenuRepository.

Module SqliteOrderRepository.
Record t := mk { _orders : list Order.t }.

Definition new : t := mk [].

Definition save (order : Order.t) (this : t) : t :=
  let idx := JsArray.findIndex (λ o, Order.id o = Order.id order) (_orders this) in
  if (0 <=? idx)%Z
  then mk (<[Z.to_nat idx := order]> (_orders this))
  else mk (JsArray.push (_orders this) order).

Definition findById (id : string) (this : t) : option Order.t :=
  JsArray.find (λ o, Order.id o = id) (_orders this).

Definition findByStatus (status : string) (this : t) : list Order.t :=
  filter (λ o, Order.status o = status) (_orders this).

Definition findAll (this : t) : list Order.t := _orders this.

Definition updateStatus (id status : string) (this : t) : t :=
  match list_find (λ o, Order.id o = id) (_orders this) with
  | Some (i, _) => mk (alter (Order.with_status status) i (_orders this))
  | None => this
  end.
End SqliteOrderRepository.

(** ** Notions used to state the properties *)

(** A sequence of [addItem(id, qty)] calls, run in order on a cart. *)
Definition addItems (calls : list (string * float)) (c : Cart.t) : Cart.t :=
  foldl (λ c call, Cart.addItem call.1 call.2 c) c calls.

(** The positive [qty] arguments supplied for [id], in call order. *)
Definition positive_qtys (id : string) (calls : list (string * float)) : list float :=
  snd <$> filter (λ call, call.1 = id ∧ (0 <? call.2)%float = true) calls.

(** The [qty] arguments supplied for [id] that pass the guard of [addItem]
    (the test [qty <= 0] fails), in call order. *)
Definition accepted_qtys (id : string) (calls : list (string * float)) : list float :=
  snd <$> filter (λ call, call.1 = id ∧ (call.2 <=? 0)%float = false) calls.

(** The sum [q1 + q2 + ... + qn], added from the left as the code adds;
    there is no sum of no number. *)
Definition sum_in_order (qs : list float) : option float :=
  match qs with
  | [] => None
  | q :: qs' => Some (foldl PrimFloat.add q qs')
  end.

(** The cart's entries for one id. *)
Definition entries_for (id : string) (c : Cart.t) : list CartItem.t :=
  filter (λ ci, CartItem.menuItemId ci = id) (Cart.items c).

(** What [addItem] does to the array once [qty] has passed the guard, by
    recursion on the array. *)
Fixpoint bump (id : string) (qty : float) (l : list CartItem.t) : list CartItem.t :=
  match l with
  | [] => [CartItem.mk id qty]
  | ci :: l' =>
      if decide (CartItem.menuItemId ci = id)
      then CartItem.mk (CartItem.menuItemId ci) (CartItem.quantity ci + qty)%float :: l'
      else ci :: bump id qty l'
  end.

(** [mi] is the first item of [menu] whose id is [id]. *)
Definition first_with_id (menu : list MenuItem.t) (id : string) (mi : MenuItem.t) : Prop :=
  ∃ i, menu !! i = Some mi ∧ MenuItem.id mi = id
       ∧ ∀ j m, j < i → menu !! j = Some m → MenuItem.id m ≠ id.

(** What a cart item adds to a total: [price * quantity] at the price of
    the first menu item with its id when that item is available, and
    nothing when that item is not available or when no menu item has its id. *)
Inductive contributes (menu : list MenuItem.t) (ci : CartItem.t) : option float → Prop :=
| contributes_priced mi :
    first_with_id menu (CartItem.menuItemId ci) mi →
    MenuItem.available mi = true →
    contributes menu ci (Some (MenuItem.price mi * CartItem.quantity ci)%float)
| contributes_unavailable mi :
    first_with_id menu (CartItem.menuItemId ci) mi →
    MenuItem.available mi = false →
    contributes menu ci None
| contributes_unknown :
    (∀ m, m ∈ menu → MenuItem.id m ≠ CartItem.menuItemId ci) →
    contributes menu ci None.

(** The sum of a list of numbers: [0 + x1 + ... + xn], added from the left. *)
Definition sum_from_zero (xs : list float) : float := foldl PrimFloat.add 0%float xs.

(** The amounts that are there, in order. *)
Definition present (amounts : list (option float)) : list float := omap id amounts.

(** The amount of one line, computed. *)
Definition amount (menu : list MenuItem.t) (ci : CartItem.t) : option float :=
  match list_find (λ m, MenuItem.id m = CartItem.menuItemId ci) menu with
  | Some (_, mi) =>
      if MenuItem.available mi
      then Some (MenuItem.price mi * CartItem.quantity ci)%float
      else None
  | None => None
  end.

(** A cart item is matched when some menu item has its id and the first
    such item is available. *)
Definition matched (menu : list MenuItem.t) (ci : CartItem.t) : Prop :=
  ∃ mi, first_with_id menu (CartItem.menuItemId ci) mi ∧ MenuItem.available mi = true.

Definition matchedb (menu : list MenuItem.t) (ci : CartItem.t) : bool :=
  match list_find (λ m, MenuItem.id m = CartItem.menuItemId ci) menu with
  | Some (_, mi) => MenuItem.available mi
  | None => false
  end.

(** The sum of the quantities of the matched cart items. *)
Definition matched_qty (items : list CartItem.t) (menu : list MenuItem.t) : float :=
  sum_from_zero (CartItem.quantity <$> filter (λ ci, matchedb menu ci = true) items).

(** The successor of a status in the linear order
    [RECEIVED → PREPARING → READY → PICKED_UP]; [PICKED_UP] and any value
    outside the list stay as they are. *)
Definition next_status (s : string) : string :=
  if decide (s = OrderStatus.RECEIVED) then OrderStatus.PREPARING
  else if decide (s = OrderStatus.PREPARING) then OrderStatus.READY
  else if decide (s = OrderStatus.READY) then OrderStatus.PICKED_UP
  else s.

(** [n] calls of [advanceStatus()] in a row. *)
Definition advance_times (n : nat) (o : Order.t) : Order.t := Nat.iter n Order.advanceStatus o.

(** A call on a subject that changes its registrations. *)
Inductive registration (W : Type) : Type :=
| Attach (o : observer W)
| Detach (o : observer W).
Arguments Attach {W} o.
Arguments Detach {W} o.

(** A subject after a sequence of [attach] and [detach] calls, in order. *)
Definition register {W} (calls : list (registration W)) (s : OrderSubject W) : OrderSubject W :=
  foldl (λ s c, match c with Attach o => attach o s | Detach o => detach o s end) s calls.

(** How many times [notify] called [onStatusChanged] on the observer [o]. *)
Definition times_invoked {W} (o : observer W) (calls : list call) : nat :=
  length (filter (λ c : call, c.1.1 = ref o) calls).

(** Isolated delivery: every attached observer gets its call, whatever the
    other observers do. *)
Definition delivers_to_all {W} (orderId status : string) (s : OrderSubject W) (w : W) : Prop :=
  ∀ o, o ∈ observers s → call_on orderId status o ∈ (notify orderId status s w).1.

(** Two observers over a console: one whose [onStatusChanged] throws, one
    that prints the change. *)
Definition failing_observer : observer (list string) :=
  {| ref := 1; onStatusChanged := λ _ _ console, (Throw "boom", console) |}.

Definition printing_observer : observer (list string) :=
  {| ref := 2;
     onStatusChanged := λ orderId status console,
       (Normal tt, console ++ ["Order " +:+ orderId +:+ " -> " +:+ status]) |}.

(** ** Sample data *)

Definition demo_menu : list MenuItem.t :=
  [MenuItem.mk "m1" "Burger" 3.5 "MAIN" ["HALAL"] true;
   MenuItem.mk "m2" "Pizza Slice" 2.0 "MAIN" [] false].

Definition demo_cart_small : list CartItem.t := [CartItem.mk "m1" 2; CartItem.mk "m2" 1].

Definition demo_cart_large : list CartItem.t := [CartItem.mk "m1" 4].

(** Two burgers, five slices of a pizza that is not available, and seven
    of an item the menu does not have. *)
Definition demo_cart_mixed : list CartItem.t :=
  [CartItem.mk "m2" 5; CartItem.mk "m1" 2; CartItem.mk "m9" 7].

Definition demo_calls : list (string * float) :=
  [("m1", 1); ("m2", 2); ("m1", 0); ("m1", -5); ("m1", 3)]%float.

Definition demo_order (status : string) : Order.t :=
  Order.mk "o1" "u1" demo_cart_small status 0 7%float.

Definition demo_repo : SqliteMenuRepository.t := SqliteMenuRepository.new demo_menu.

Definition demo_fries : MenuItem.t := MenuItem.mk "m3" "French Fries" 1.2 "SIDE" ["VEG"] true.

Definition demo_pizza_back : MenuItem.t := MenuItem.mk "m2" "Pizza Slice" 2.5 "MAIN" [] true.

Definition demo_subject : OrderSubject (list string) :=
  register [Attach printing_observer; Attach failing_observer; Attach (OrderObserver_new 3)]
           OrderSubject_new.

Definition demo_subject_failing_first : OrderSubject (list string) :=
  register [Attach failing_observer; Attach printing_observer] OrderSubject_new.

Definition demo_subject_quiet : OrderSubject (list string) :=
  register [Attach printing_observer] OrderSubject_new.

(** ** The page's handlers, without the DOM *)

(** The grouping loop of [renderMenu]: the available items of the menu,
    each pushed to the first of the groups HALAL, VEG, VEGAN whose tag it
    carries, and to OTHER when it carries none. *)
Record MenuGroups := {
  group_HALAL : list MenuItem.t;
  group_VEG : list MenuItem.t;
  group_VEGAN : list MenuItem.t;
  group_OTHER : list MenuItem.t
}.

Definition group_step (groups : MenuGroups) (item : MenuItem.t) : MenuGroups :=
  if bool_decide ("HALAL" ∈ MenuItem.tags item) then
    {| group_HALAL := JsArray.push (group_HALAL groups) item;
       group_VEG := group_VEG groups;
       group_VEGAN := group_VEGAN groups;
       group_OTHER := group_OTHER groups |}
  else if bool_decide ("VEG" ∈ MenuItem.tags item) then
    {| group_HALAL := group_HALAL groups;
       group_VEG := JsArray.push (group_VEG groups) item;
       group_VEGAN := group_VEGAN groups;
       group_OTHER := group_OTHER groups |}
  else if bool_decide ("VEGAN" ∈ MenuItem.tags item) then
    {| group_HALAL := group_HALAL groups;
       group_VEG := group_VEG groups;
       group_VEGAN := JsArray.push (group_VEGAN groups) item;
       group_OTHER := group_OTHER groups |}
  else
    {| group_HALAL := group_HALAL groups;
       group_VEG := group_VEG groups;
       group_VEGAN := group_VEGAN groups;
       group_OTHER := JsArray.push (group_OTHER groups) item |}.

(** [const all = menuRepo.findAll().filter((i) => i.available)] *)
Definition menu_shown (menuRepo : SqliteMenuRepository.t) : list MenuItem.t :=
  filter (λ i, MenuItem.available i = true) (SqliteMenuRepository.findAll menuRepo).

Definition menu_groups (menuRepo : SqliteMenuRepository.t) : MenuGroups :=
  foldl group_step
        {| group_HALAL := []; group_VEG := []; group_VEGAN := []; group_OTHER := [] |}
        (menu_shown menuRepo).

(** The click handler of an order's "Next status" button:
    [order.advanceStatus(); orderRepo.save(order);
     orderSubject.notify(order.id, order.status)].
    It gives the order, the repository and what [notify] did. *)
Definition advance_click {W} (order : Order.t) (orderRepo : SqliteOrderRepository.t)
    (orderSubject : OrderSubject W) (w : W)
  : Order.t * SqliteOrderRepository.t * (list call * (completion unit * W)) :=
  let order' := Order.advanceStatus order in
  let orderRepo' := SqliteOrderRepository.save order' orderRepo in
  (order', orderRepo', notify (Order.id order') (Order.status order') orderSubject w).

(** The objects the page wires together at start-up, as far as the
    handlers below use them. *)
Record App (W : Type) := {
  cart : Cart.t;
  menuRepo : SqliteMenuRepository.t;
  orderRepo : SqliteOrderRepository.t;
  orderSubject : OrderSubject W
}.
Arguments cart {W} _.
Arguments menuRepo {W} _.
Arguments orderRepo {W} _.
Arguments orderSubject {W} _.

Definition currentStudent : User.t := User.mk "u1" "Student Alice" Role.STUDENT.

(** The click handler of the "Place order" button.  From the environment
    it takes [pickup], the date built from the time field when the field is
    filled, and two readings of the clock in milliseconds: [now1], read for
    the default pickup time when the field is empty, and [now2], read for
    the order id.  It gives the objects and the observers' world after the
    click, the [onStatusChanged] calls made, and the text put in the
    message line, or the exception that left the handler.  The strategy is
    the page's [new SimplePricingStrategy()]; redrawing the cart is left out. *)
Definition place_order {W} (pickup : option Z) (now1 now2 : Z) (app : App W) (w : W)
  : App W * W * list call * completion string :=
  let items := Cart.getItems (cart app) in
  if decide (length items = 0) then (app, w, [], Normal "Cart is empty.")
  else
    let menu := SqliteMenuRepository.findAll (menuRepo app) in
    match pricing_computeTotal SimplePricingStrategy.new items menu with
    | Throw e => (app, w, [], Throw e)
    | Normal total =>
        let pickupDate :=
          match pickup with
          | Some d => d
          | None => (now1 + 30 * 60 * 1000)%Z
          end in
        let orderId := "o" +:+ pretty now2 in
        let order := Order.mk orderId (User.id currentStudent) items
                              OrderStatus.RECEIVED pickupDate total in
        let orderRepo' := SqliteOrderRepository.save order (orderRepo app) in
        match notify (Order.id order) (Order.status order) (orderSubject app) w with
        | (calls, (Normal _, w')) =>
            ({| cart := Cart.clear (cart app); menuRepo := menuRepo app;
                orderRepo := orderRepo'; orderSubject := orderSubject app |},
             w', calls,
             Normal ("Order placed! Your order id is " +:+ orderId +:+ "."))
        | (calls, (Throw e, w')) =>
            ({| cart := cart app; menuRepo := menuRepo app;
                orderRepo := orderRepo'; orderSubject := orderSubject app |},
             w', calls, Throw e)
        end
    end.

Definition demo_app : App (list string) :=
  {| cart := addItems demo_calls Cart.new;
     menuRepo := demo_repo;
     orderRepo := SqliteOrderRepository.new;
     orderSubject := demo_subject_quiet |}.

(** A call on a cart that changes it. *)
Inductive cart_call : Type :=
| AddItem (menuItemId : string) (qty : float)
| RemoveItem (menuItemId : string)
| Clear.

(** A cart after a sequence of calls, in order. *)
Definition cart_calls (calls : list cart_call) (c : Cart.t) : Cart.t :=
  foldl (λ c call,
           match call with
           | AddItem id qty => Cart.addItem id qty c
           | RemoveItem id => Cart.removeItem id c
           | Clear => Cart.clear c
           end) c calls.

Definition demo_app_failing : App (list string) :=
  {| cart := addItems demo_calls Cart.new;
     menuRepo := demo_repo;
     orderRepo := SqliteOrderRepository.new;
     orderSubject := demo_subject_failing_first |}.

(** * Properties *)

(** ** Numbers *)

(** For a number that is not NaN, failing the guard [qty <= 0] is being positive. *)
Lemma guard_positive (q : float) :
  PrimFloat.is_nan q = false → negb (q <=? 0)%float = (0 <? q)%float.
Proof.
  unfold PrimFloat.is_nan.
  rewrite FloatAxioms.eqb_spec, FloatAxioms.leb_spec, FloatAxioms.ltb_spec.
  change (Prim2SF 0) with (S754_zero false).
  destruct (Prim2SF q) as [s|s| |s m e]; try destruct s; cbn; try done.
Qed.

Lemma SFcompare_antisym x y c :
  SFcompare x y = Some c → SFcompare y x = Some (CompOpp c).
Proof.
  destruct x as [s|s| |s m e], y as [s'|s'| |s' m' e']; cbn;
    repeat match goal with b : bool |- _ => destruct b end; cbn;
    try (intros [= <-]; reflexivity); try discriminate.
  all: rewrite (Z.compare_antisym e e');
    change (Pos.compare_cont Eq m' m) with (m' ?= m)%positive;
    change (Pos.compare_cont Eq m m') with (m ?= m')%positive;
    rewrite (Pos.compare_antisym m m');
    destruct (e ?= e')%Z, (m ?= m')%positive; cbn; intros [= <-]; reflexivity.
Qed.

(** [x < y] excludes [y <= x]. *)
Lemma ltb_not_leb (x y : float) : (x <? y)%float = true → (y <=? x)%float = false.
Proof.
  rewrite FloatAxioms.ltb_spec, FloatAxioms.leb_spec. unfold SFltb, SFleb.
  destruct (SFcompare (Prim2SF x) (Prim2SF y)) as [c|] eqn:E; [|done].
  rewrite (SFcompare_antisym _ _ _ E). by destruct c.
Qed.

(** ** Cart *)

Lemma addItem_rejected id qty c : (qty <=? 0)%float = true → Cart.addItem id qty c = c.
Proof. intros H. unfold Cart.addItem. by rewrite H. Qed.

Lemma find_insert_bump id qty (l : list CartItem.t) :
  match list_find (λ ci, CartItem.menuItemId ci = id) l with
  | Some (i, existing) =>
      <[i := CartItem.mk (CartItem.menuItemId existing)
                         (CartItem.quantity existing + qty)%float]> l
  | None => JsArray.push l (CartItem.mk id qty)
  end = bump id qty l.
Proof.
  induction l as [|ci l IH]; [done|].
  cbn. destruct (decide (CartItem.menuItemId ci = id)) as [E|N]; [done|].
  destruct (list_find _ l) as [[i x]|]; cbn in *; by rewrite <- IH.
Qed.

Lemma addItem_accepted id qty c :
  (qty <=? 0)%float = false →
  Cart.items (Cart.addItem id qty c) = bump id qty (Cart.items c).
Proof.
  intros H. unfold Cart.addItem. rewrite H.
  rewrite <- find_insert_bump. by destruct (list_find _ _) as [[i x]|].
Qed.

Lemma bump_ids id qty l :
  CartItem.menuItemId <$> bump id qty l =
  if decide (id ∈ CartItem.menuItemId <$> l)
  then CartItem.menuItemId <$> l
  else (CartItem.menuItemId <$> l) ++ [id].
Proof.
  induction l as [|ci l IH]; cbn.
  - case_decide as H; [by apply elem_of_nil in H | done].
  - destruct (decide (CartItem.menuItemId ci = id)) as [E|N]; cbn.
    + rewrite decide_True; [done | rewrite E; left].
    + rewrite IH. destruct (decide (id ∈ CartItem.menuItemId <$> l)) as [I|I].
      * rewrite decide_True; [done | by right].
      * rewrite decide_False; [done|]. intros [?|?]%elem_of_cons; congruence.
Qed.

Lemma bump_NoDup id qty l :
  NoDup (CartItem.menuItemId <$> l) → NoDup (CartItem.menuItemId <$> bump id qty l).
Proof.
  intros H. rewrite bump_ids. case_decide as I; [done|].
  apply NoDup_app. split_and!; [done | | apply NoDup_singleton].
  intros x Hx ->%list_elem_of_singleton. done.
Qed.

Lemma bump_filter id' id qty l :
  filter (λ ci, CartItem.menuItemId ci = id') (bump id qty l) =
  if decide (id' = id)
  then match filter (λ ci, CartItem.menuItemId ci = id) l with
       | [] => [CartItem.mk id qty]
       | ci :: r => CartItem.mk id (CartItem.quantity ci + qty)%float :: r
       end
  else filter (λ ci, CartItem.menuItemId ci = id') l.
Proof.
  induction l as [|ci l IH]; cbn [bump].
  - rewrite filter_cons, !filter_nil. cbn [CartItem.menuItemId].
    destruct (decide (id = id')), (decide (id' = id)); congruence.
  - destruct (decide (CartItem.menuItemId ci = id)) as [E|N].
    + rewrite !filter_cons. cbn [CartItem.menuItemId].
      destruct (decide (id' = id)) as [->|N'].
      * rewrite !decide_True by done. by rewrite E.
      * rewrite !decide_False by congruence. done.
    + rewrite !filter_cons, IH. destruct (decide (id' = id)) as [->|N'].
      * rewrite !decide_False by done. done.
      * by destruct (decide (CartItem.menuItemId ci = id')).
Qed.

Lemma sum_in_order_snoc qs q :
  sum_in_order (qs ++ [q]) =
  Some (match sum_in_order qs with Some x => (x + q)%float | None => q end).
Proof. destruct qs as [|q0 qs]; cbn; [done|]. by rewrite foldl_app. Qed.

Lemma accepted_qtys_snoc id calls call :
  accepted_qtys id (calls ++ [call]) =
  accepted_qtys id calls ++
    (if decide (call.1 = id ∧ (call.2 <=? 0)%float = false) then [call.2] else []).
Proof.
  unfold accepted_qtys. rewrite filter_app, fmap_app, filter_cons, filter_nil.
  by case_decide.
Qed.

Lemma addItems_snoc calls call c :
  addItems (calls ++ [call]) c = Cart.addItem call.1 call.2 (addItems calls c).
Proof. unfold addItems. by rewrite foldl_app. Qed.

Lemma addItem_NoDup id qty c :
  NoDup (CartItem.menuItemId <$> Cart.items c) →
  NoDup (CartItem.menuItemId <$> Cart.items (Cart.addItem id qty c)).
Proof.
  intros H. destruct (qty <=? 0)%float eqn:G.
  - by rewrite addItem_rejected.
  - rewrite addItem_accepted by done. by apply bump_NoDup.
Qed.

Lemma addItems_NoDup calls :
  NoDup (CartItem.menuItemId <$> Cart.items (addItems calls Cart.new)).
Proof.
  induction calls as [|call calls IH] using rev_ind.
  - apply NoDup_nil_2.
  - rewrite addItems_snoc. by apply addItem_NoDup.
Qed.

(** Whatever the arguments, the entry for an id carries the sum of the
    [qty] arguments that passed the guard. *)
Lemma addItems_entries_accepted calls id :
  entries_for id (addItems calls Cart.new) =
  match sum_in_order (accepted_qtys id calls) with
  | Some q => [CartItem.mk id q]
  | None => []
  end.
Proof.
  induction calls as [|[id' q] calls IH] using rev_ind; [done|].
  rewrite addItems_snoc, accepted_qtys_snoc. cbn [fst snd].
  destruct (q <=? 0)%float eqn:G.
  - rewrite addItem_rejected by done.
    rewrite decide_False by (intros [_ ?]; done). by rewrite app_nil_r.
  - unfold entries_for in *. rewrite addItem_accepted by done.
    rewrite bump_filter. destruct (decide (id = id')) as [->|N].
    + rewrite decide_True by done. rewrite sum_in_order_snoc, IH.
      by destruct (sum_in_order _).
    + rewrite decide_False by (intros [? _]; done). by rewrite app_nil_r.
Qed.

(** Among numbers other than NaN, the arguments that pass the guard are
    the positive ones. *)
Lemma accepted_qtys_positive calls id :
  Forall (λ call, PrimFloat.is_nan call.2 = false) calls →
  accepted_qtys id calls = positive_qtys id calls.
Proof.
  unfold accepted_qtys, positive_qtys. induction 1 as [|call calls Hq _ IH]; [done|].
  apply guard_positive in Hq. rewrite !filter_cons.
  destruct (call.2 <=? 0)%float; cbn in Hq; rewrite <- Hq.
  - rewrite !decide_False by (intros [_ ?]; done). done.
  - destruct (decide (call.1 = id)) as [E|N].
    + rewrite !decide_True by done. cbn. by rewrite IH.
    + rewrite !decide_False by (intros [? _]; done). done.
Qed.

Lemma addItems_entries calls id :
  Forall (λ call, PrimFloat.is_nan call.2 = false) calls →
  entries_for id (addItems calls Cart.new) =
  match sum_in_order (positive_qtys id calls) with
  | Some q => [CartItem.mk id q]
  | None => []
  end.
Proof.
  intros H. rewrite addItems_entries_accepted. by rewrite accepted_qtys_positive.
Qed.

(** C4. Starting from an empty cart, after any sequence of [addItem] calls
    (whose [qty] arguments are numbers, not NaN) the cart holds at most one
    [CartItem] per [menuItemId]: the ids are pairwise distinct, and the
    entries for an id are exactly one item carrying the sum of the positive
    [qty] arguments supplied for that id, or no item when none was supplied.
    A call with [qty <= 0] leaves any cart unchanged. *)
Theorem cart_addItem_sums_positive_qtys (calls : list (string * float)) :
  Forall (λ call, PrimFloat.is_nan call.2 = false) calls →
  NoDup (CartItem.menuItemId <$> Cart.items (addItems calls Cart.new))
  ∧ (∀ id, entries_for id (addItems calls Cart.new) =
           match sum_in_order (positive_qtys id calls) with
           | Some q => [CartItem.mk id q]
           | None => []
           end)
  ∧ (∀ id qty c, (qty <=? 0)%float = true → Cart.addItem id qty c = c).
Proof.
  intros H. split_and!.
  - apply addItems_NoDup.
  - intros id. by apply addItems_entries.
  - apply addItem_rejected.
Qed.

(** ** Pricing *)

Lemma list_find_first_with_id menu id i mi :
  list_find (λ m, MenuItem.id m = id) menu = Some (i, mi) → first_with_id menu id mi.
Proof. intros (? & ? & ?)%list_find_Some. exists i. eauto. Qed.

Lemma first_with_id_unique menu id mi mi' :
  first_with_id menu id mi → first_with_id menu id mi' → mi = mi'.
Proof.
  intros (i & Hi & Ei & Li) (j & Hj & Ej & Lj).
  destruct (Nat.lt_trichotomy i j) as [H|[->|H]].
  - by destruct (Lj _ _ H Hi).
  - congruence.
  - by destruct (Li _ _ H Hj).
Qed.

Lemma amount_contributes menu ci : contributes menu ci (amount menu ci).
Proof.
  unfold amount.
  destruct (list_find _ menu) as [[i mi]|] eqn:E.
  - apply list_find_first_with_id in E.
    destruct (MenuItem.available mi) eqn:Av.
    + by apply contributes_priced.
    + by eapply contributes_unavailable.
  - apply contributes_unknown. intros m Hm.
    apply list_find_None in E. by eapply Forall_forall in E.
Qed.

Lemma matchedb_matched menu ci : matchedb menu ci = true ↔ matched menu ci.
Proof.
  unfold matchedb, matched.
  destruct (list_find _ menu) as [[i mi]|] eqn:E.
  - apply list_find_first_with_id in E. split; [eauto|].
    intros (mi' & F & Av). by rewrite (first_with_id_unique _ _ _ _ E F).
  - split; [done|]. intros (mi & (i & Hi & Ei & _) & _).
    apply list_find_None in E. eapply Forall_forall in E; [|by eapply list_elem_of_lookup_2].
    done.
Qed.

Lemma simple_step_amount menu total ci :
  SimplePricingStrategy.step menu total ci =
  match amount menu ci with Some a => (total + a)%float | None => total end.
Proof.
  unfold SimplePricingStrategy.step, amount, JsArray.find.
  destruct (list_find _ menu) as [[i mi]|]; cbn; [|done].
  by destruct (MenuItem.available mi).
Qed.

Lemma simple_loop_sum menu items total :
  foldl (SimplePricingStrategy.step menu) total items =
  foldl PrimFloat.add total (present (amount menu <$> items)).
Proof.
  revert total. induction items as [|ci items IH]; intros total; [done|].
  cbn. rewrite IH, simple_step_amount. unfold present.
  by destruct (amount menu ci).
Qed.

(** C1. [SimplePricingStrategy.computeTotal] returns normally, and what it
    returns is the sum, over the cart items in order, of what each one
    contributes: [price * quantity] at the price of the first menu item
    whose id is the cart item's [menuItemId]; a cart item whose id no menu
    item has, or whose menu item is not available, contributes no term. *)
Theorem simple_computeTotal_sum (items : list CartItem.t) (menu : list MenuItem.t) :
  ∃ amounts : list (option float),
    Forall2 (contributes menu) items amounts
    ∧ SimplePricingStrategy.computeTotal items menu = Normal (sum_from_zero (present amounts)).
Proof.
  exists (amount menu <$> items). split.
  - apply Forall2_fmap_r, Forall_Forall2_diag, Forall_forall.
    intros ci _. apply amount_contributes.
  - unfold SimplePricingStrategy.computeTotal, sum_from_zero.
    by rewrite simple_loop_sum.
Qed.

Lemma contributes_functional menu ci a b :
  contributes menu ci a → contributes menu ci b → a = b.
Proof.
  assert (Hno : ∀ mi, first_with_id menu (CartItem.menuItemId ci) mi →
                (∀ m, m ∈ menu → MenuItem.id m ≠ CartItem.menuItemId ci) → False).
  { intros mi (i & Hi & Ei & _) H. by eapply H; [eapply list_elem_of_lookup_2|]. }
  intros [mi F Av|mi F Av|H] [mi' F' Av'|mi' F' Av'|H']; try done;
    try (pose proof (first_with_id_unique _ _ _ _ F F'); subst; congruence);
    exfalso; eauto.
Qed.

Lemma combo_step_simple menu total qtySum ci :
  ComboPricingStrategy.step menu (total, qtySum) ci =
  (SimplePricingStrategy.step menu total ci,
   if matchedb menu ci then (qtySum + CartItem.quantity ci)%float else qtySum).
Proof.
  unfold ComboPricingStrategy.step, SimplePricingStrategy.step, matchedb, JsArray.find.
  destruct (list_find _ menu) as [[i mi]|]; cbn; [|done].
  by destruct (MenuItem.available mi).
Qed.

Lemma combo_loop_from menu items total qtySum :
  foldl (ComboPricingStrategy.step menu) (total, qtySum) items =
  (foldl (SimplePricingStrategy.step menu) total items,
   foldl PrimFloat.add qtySum
     (CartItem.quantity <$> filter (λ ci, matchedb menu ci = true) items)).
Proof.
  revert total qtySum. induction items as [|ci items IH]; intros total qtySum; [done|].
  cbn [foldl]. rewrite combo_step_simple, IH, filter_cons.
  destruct (matchedb menu ci); [rewrite decide_True by done | rewrite decide_False by done]; done.
Qed.

Lemma combo_loop_simple items menu :
  ComboPricingStrategy.loop items menu =
  (foldl (SimplePricingStrategy.step menu) 0%float items, matched_qty items menu).
Proof. apply combo_loop_from. Qed.

Lemma combo_computeTotal_unfold items menu :
  ComboPricingStrategy.computeTotal items menu =
  Normal (if (3 <=? matched_qty items menu)%float
          then (foldl (SimplePricingStrategy.step menu) 0 items * 0.9)%float
          else foldl (SimplePricingStrategy.step menu) 0%float items).
Proof. unfold ComboPricingStrategy.computeTotal. by rewrite combo_loop_simple. Qed.

(** C2. [ComboPricingStrategy.computeTotal] accumulates the same total as
    [SimplePricingStrategy.computeTotal] and, beside it, the sum of the
    matched quantities.  When that sum is at least 3 it returns the Simple
    total times 0.9, one final adjustment; when that sum is below 3 it
    returns what [SimplePricingStrategy.computeTotal] returns. *)
Theorem combo_computeTotal_discount (items : list CartItem.t) (menu : list MenuItem.t) :
  ∃ total : float,
    SimplePricingStrategy.computeTotal items menu = Normal total
    ∧ ComboPricingStrategy.loop items menu = (total, matched_qty items menu)
    ∧ ((3 <=? matched_qty items menu)%float = true →
       ComboPricingStrategy.computeTotal items menu = Normal (total * 0.9)%float)
    ∧ ((matched_qty items menu <? 3)%float = true →
       ComboPricingStrategy.computeTotal items menu =
       SimplePricingStrategy.computeTotal items menu).
Proof.
  exists (foldl (SimplePricingStrategy.step menu) 0%float items).
  rewrite combo_computeTotal_unfold. split_and!.
  - done.
  - apply combo_loop_simple.
  - by intros ->.
  - intros H%ltb_not_leb. by rewrite H.
Qed.

(** C9. With [m1] at 3.50, available, and [m2] at 2.00, not available, in
    the menu: the cart [m1 x 2, m2 x 1] costs exactly 7 under both
    strategies, and the cart [m1 x 4] costs exactly 14 under Simple and
    exactly 12.6 under Combo. *)
Theorem pricing_example_scenarios (n1 c1 n2 c2 : string) (t1 t2 : list string) :
  let menu := [MenuItem.mk "m1" n1 3.5 c1 t1 true; MenuItem.mk "m2" n2 2.0 c2 t2 false] in
  SimplePricingStrategy.computeTotal [CartItem.mk "m1" 2; CartItem.mk "m2" 1] menu = Normal 7%float
  ∧ ComboPricingStrategy.computeTotal [CartItem.mk "m1" 2; CartItem.mk "m2" 1] menu = Normal 7%float
  ∧ SimplePricingStrategy.computeTotal [CartItem.mk "m1" 4] menu = Normal 14%float
  ∧ ComboPricingStrategy.computeTotal [CartItem.mk "m1" 4] menu = Normal 12.6%float.
Proof. cbv zeta. split_and!; reflexivity. Qed.

Lemma simple_step_unmatched menu total ci :
  matchedb menu ci = false → SimplePricingStrategy.step menu total ci = total.
Proof.
  unfold SimplePricingStrategy.step, matchedb, JsArray.find.
  destruct (list_find _ menu) as [[i mi]|]; cbn; [|done]. by intros ->.
Qed.

Lemma simple_loop_matched_only menu items total :
  foldl (SimplePricingStrategy.step menu) total items =
  foldl (SimplePricingStrategy.step menu) total (filter (λ ci, matchedb menu ci = true) items).
Proof.
  revert total. induction items as [|ci items IH]; intros total; [done|].
  rewrite filter_cons. destruct (matchedb menu ci) eqn:M.
  - rewrite decide_True by done. cbn [foldl]. apply IH.
  - rewrite decide_False by done. cbn [foldl].
    rewrite simple_step_unmatched by done. apply IH.
Qed.

Lemma filter_matched_idemp menu (items : list CartItem.t) :
  filter (λ ci, matchedb menu ci = true) (filter (λ ci, matchedb menu ci = true) items) =
  filter (λ ci, matchedb menu ci = true) items.
Proof.
  induction items as [|ci items IH]; [done|].
  rewrite filter_cons. destruct (matchedb menu ci) eqn:M.
  - rewrite decide_True by done. rewrite filter_cons, decide_True by done. by rewrite IH.
  - rewrite decide_False by done. done.
Qed.

(** C10. In [ComboPricingStrategy.computeTotal] the sum compared against 3
    is made of the quantities of the matched cart items only (some menu
    item has the id, and the first such item is available).  Cart items
    that are unavailable or unknown change neither that sum nor the result,
    and a cart whose matched quantities sum below 3 gets no discount. *)
Theorem combo_threshold_counts_matched_only (items : list CartItem.t) (menu : list MenuItem.t) :
  let counted := filter (λ ci, matchedb menu ci = true) items in
  Forall (matched menu) counted
  ∧ (∀ ci, ci ∈ items → matched menu ci → ci ∈ counted)
  ∧ snd (ComboPricingStrategy.loop items menu) = sum_from_zero (CartItem.quantity <$> counted)
  ∧ ComboPricingStrategy.computeTotal items menu = ComboPricingStrategy.computeTotal counted menu
  ∧ ((sum_from_zero (CartItem.quantity <$> counted) <? 3)%float = true →
     ComboPricingStrategy.computeTotal items menu =
     SimplePricingStrategy.computeTotal items menu).
Proof.
  cbv zeta. split_and!.
  - apply Forall_forall. intros ci [H _]%list_elem_of_filter. by apply matchedb_matched.
  - intros ci Hin H. apply list_elem_of_filter. split; [by apply matchedb_matched | done].
  - by rewrite combo_loop_simple.
  - rewrite !combo_computeTotal_unfold. unfold matched_qty.
    by rewrite filter_matched_idemp, <- simple_loop_matched_only.
  - intros H%ltb_not_leb. rewrite combo_computeTotal_unfold.
    unfold matched_qty. by rewrite H.
Qed.

(** ** Order status *)

Lemma with_status_same o : Order.with_status (Order.status o) o = o.
Proof. by destruct o. Qed.

Lemma advanceStatus_next o :
  Order.advanceStatus o = Order.with_status (next_status (Order.status o)) o.
Proof.
  destruct o as [i u it s p t].
  unfold Order.advanceStatus, next_status, JsArray.indexOf, JsArray.findIndex, Order.flow.
  cbn [list_find Order.status].
  destruct (decide (OrderStatus.RECEIVED = s)) as [<-|N1]; [reflexivity|].
  destruct (decide (OrderStatus.PREPARING = s)) as [<-|N2]; [reflexivity|].
  destruct (decide (OrderStatus.READY = s)) as [<-|N3]; [reflexivity|].
  destruct (decide (OrderStatus.PICKED_UP = s)) as [<-|N4]; [reflexivity|].
  rewrite !decide_False by congruence. reflexivity.
Qed.

Lemma advanceStatus_outside o :
  Order.status o = OrderStatus.PICKED_UP ∨ Order.status o ∉ Order.flow →
  Order.advanceStatus o = o.
Proof.
  intros H. rewrite advanceStatus_next.
  assert (next_status (Order.status o) = Order.status o) as ->;
    [|apply with_status_same].
  unfold next_status. destruct H as [E|H]; [by rewrite E|].
  rewrite !decide_False; [done|..]; intros E; apply H; rewrite E; unfold Order.flow;
    repeat constructor.
Qed.

Lemma advance_times_S n o :
  advance_times (S n) o = Order.advanceStatus (advance_times n o).
Proof. reflexivity. Qed.

(** C3. [Order.advanceStatus] sets the status to its successor in the
    linear order [RECEIVED → PREPARING → READY → PICKED_UP] and touches
    nothing else; on [PICKED_UP], and on any value that is not in the list,
    it returns the order as it was: no error, no wrap-around, no stage
    skipped.  From [RECEIVED] the statuses after one, two, three and four
    calls are [PREPARING], [READY], [PICKED_UP] and [PICKED_UP], and a
    fifth call changes nothing. *)
Theorem advanceStatus_linear (o : Order.t) :
  Order.advanceStatus o = Order.with_status (next_status (Order.status o)) o
  ∧ (Order.status o = OrderStatus.PICKED_UP ∨ Order.status o ∉ Order.flow →
     Order.advanceStatus o = o)
  ∧ (Order.status o = OrderStatus.RECEIVED →
     Order.status (advance_times 1 o) = OrderStatus.PREPARING
     ∧ Order.status (advance_times 2 o) = OrderStatus.READY
     ∧ Order.status (advance_times 3 o) = OrderStatus.PICKED_UP
     ∧ Order.status (advance_times 4 o) = OrderStatus.PICKED_UP
     ∧ advance_times 5 o = advance_times 4 o).
Proof.
  split_and!.
  - apply advanceStatus_next.
  - apply advanceStatus_outside.
  - intros E. destruct o as [i u it s p t]. cbn in E. subst s. by split_and!.
Qed.

(** ** Observers *)

Section ObserverFacts.
Context {W : Type}.
Implicit Types (o : observer W) (s : OrderSubject W) (w : W).

Lemma includes_spec (l : list (observer W)) o :
  includes l o = true ↔ ref o ∈ ref <$> l.
Proof. unfold includes. by rewrite bool_decide_eq_true. Qed.

Lemma attach_registered o s :
  ref o ∈ ref <$> observers s → attach o s = s.
Proof.
  intros H%includes_spec. unfold attach. by rewrite H.
Qed.

Lemma attach_fresh o s :
  ref o ∉ ref <$> observers s → observers (attach o s) = observers s ++ [o].
Proof.
  intros H. unfold attach.
  destruct (includes (observers s) o) eqn:E; [by apply includes_spec in E|done].
Qed.

Lemma attach_elem o s : ref o ∈ ref <$> observers (attach o s).
Proof.
  destruct (decide (ref o ∈ ref <$> observers s)) as [H|H].
  - by rewrite attach_registered.
  - rewrite attach_fresh by done. rewrite fmap_app. apply elem_of_app. right. by left.
Qed.

Lemma attach_idemp o s : attach o (attach o s) = attach o s.
Proof. apply attach_registered, attach_elem. Qed.

Lemma attach_NoDup o s :
  NoDup (ref <$> observers s) → NoDup (ref <$> observers (attach o s)).
Proof.
  intros H. destruct (decide (ref o ∈ ref <$> observers s)) as [I|I].
  - by rewrite attach_registered.
  - rewrite attach_fresh, fmap_app by done.
    apply NoDup_app. split_and!; [done| |apply NoDup_singleton].
    by intros x Hx ->%list_elem_of_singleton.
Qed.

Lemma detach_NoDup o s :
  NoDup (ref <$> observers s) → NoDup (ref <$> observers (detach o s)).
Proof.
  unfold detach. cbn. induction (observers s) as [|x l IH]; [done|].
  rewrite fmap_cons, NoDup_cons. intros [Hx Hl]. rewrite filter_cons.
  case_decide; [|by apply IH].
  rewrite fmap_cons. apply NoDup_cons. split; [|by apply IH].
  intros (y & E & [_ Hy]%list_elem_of_filter)%list_elem_of_fmap.
  apply Hx, list_elem_of_fmap. eauto.
Qed.

Lemma detach_unregistered o s :
  ref o ∉ ref <$> observers s → detach o s = s.
Proof.
  destruct s as [l]. unfold detach. cbn. intros H. f_equal.
  induction l as [|x l IH]; [done|].
  rewrite fmap_cons, not_elem_of_cons in H. destruct H as [Hx Hl].
  rewrite filter_cons, decide_True by done. by rewrite IH.
Qed.

Lemma register_NoDup (calls : list (registration W)) :
  NoDup (ref <$> observers (register calls OrderSubject_new)).
Proof.
  unfold register. induction calls as [|c calls IH] using rev_ind.
  - apply NoDup_nil_2.
  - rewrite foldl_app. cbn. destruct c; [by apply attach_NoDup | by apply detach_NoDup].
Qed.

Lemma notify_loop_normal (obs : list (observer W)) orderId status w calls w' :
  notify_loop obs orderId status w = (calls, (Normal tt, w')) →
  calls = call_on orderId status <$> obs.
Proof.
  revert w calls. induction obs as [|o obs IH]; intros w calls; cbn.
  - by intros [= <- _].
  - destruct (onStatusChanged o orderId status w) as [[[]|e] w1]; [|done].
    destruct (notify_loop obs orderId status w1) as [calls1 r] eqn:E.
    intros [= <- ->]. by rewrite (IH _ _ E).
Qed.

Lemma notify_loop_throw (pre post : list (observer W)) o orderId status w calls w1 e w2 :
  notify_loop pre orderId status w = (calls, (Normal tt, w1)) →
  onStatusChanged o orderId status w1 = (Throw e, w2) →
  notify_loop (pre ++ o :: post) orderId status w =
  (call_on orderId status <$> (pre ++ [o]), (Throw e, w2)).
Proof.
  revert w calls. induction pre as [|x pre IH]; intros w calls; cbn.
  - intros [= _ <-] ->. done.
  - destruct (onStatusChanged x orderId status w) as [[[]|e'] w0]; [|done].
    destruct (notify_loop pre orderId status w0) as [calls0 r] eqn:E.
    intros [= _ ->] Ho. by rewrite (IH _ _ E Ho).
Qed.

Lemma notify_loop_no_throw (obs : list (observer W)) orderId status w :
  (∀ o, o ∈ obs → ∀ w0, (onStatusChanged o orderId status w0).1 = Normal tt) →
  ∃ w', notify_loop obs orderId status w = (call_on orderId status <$> obs, (Normal tt, w')).
Proof.
  revert w. induction obs as [|o obs IH]; intros w H; cbn; [by eexists|].
  pose proof (H o ltac:(left) w) as Ho.
  destruct (onStatusChanged o orderId status w) as [c w1]. cbn in Ho. subst c.
  destruct (IH w1) as [w' ->]; [intros; apply H; by right|]. by eexists.
Qed.

(** Whatever happens, the calls made are those of a first stretch of the
    array, in order. *)
Lemma notify_loop_prefix (obs : list (observer W)) orderId status w :
  ∃ rest, call_on orderId status <$> obs = (notify_loop obs orderId status w).1 ++ rest.
Proof.
  revert w. induction obs as [|o obs IH]; intros w; cbn; [by exists []|].
  destruct (onStatusChanged o orderId status w) as [[[]|e] w1].
  - destruct (IH w1) as [rest E].
    destruct (notify_loop obs orderId status w1) as [calls r]. cbn in *.
    exists rest. by rewrite E.
  - cbn. by eexists.
Qed.

Lemma times_invoked_app o (l1 l2 : list call) :
  times_invoked o (l1 ++ l2) = times_invoked o l1 + times_invoked o l2.
Proof. unfold times_invoked. by rewrite filter_app, length_app. Qed.

Lemma times_invoked_absent o (obs : list (observer W)) orderId status :
  ref o ∉ ref <$> obs → times_invoked o (call_on orderId status <$> obs) = 0.
Proof.
  unfold times_invoked. induction obs as [|x obs IH]; [done|].
  rewrite !fmap_cons, not_elem_of_cons. intros [Hx Hobs].
  rewrite filter_cons, decide_False by (cbn; congruence). by apply IH.
Qed.

Lemma times_invoked_once o (obs : list (observer W)) orderId status :
  NoDup (ref <$> obs) → ref o ∈ ref <$> obs →
  times_invoked o (call_on orderId status <$> obs) = 1.
Proof.
  induction obs as [|x obs IH].
  - by intros _ ?%elem_of_nil.
  - rewrite !fmap_cons, NoDup_cons. intros [Hx Hobs] Hin.
    change (call_on orderId status x :: (call_on orderId status <$> obs))
      with ([call_on orderId status x] ++ (call_on orderId status <$> obs)).
    rewrite times_invoked_app. unfold times_invoked at 1.
    rewrite filter_cons, filter_nil. cbn [call_on fst].
    destruct (decide (ref x = ref o)) as [E|N].
    + rewrite times_invoked_absent; [done | by rewrite <- E].
    + rewrite IH; [done..|]. apply elem_of_cons in Hin as [?|?]; [congruence|done].
Qed.

End ObserverFacts.

(** C5 (as amended). [OrderSubject.notify] calls
    [onStatusChanged(orderId, status)] on the attached observers one after
    the other, in attachment order.  When every call returns, every attached
    observer has been called, in that order.  A call that throws ends the
    delivery: the observers before it have been called, the exception
    propagates to the caller of [notify], and the observers after it are not
    called. *)
Theorem notify_in_order_until_throw {W} (orderId status : string) (s : OrderSubject W) (w : W) :
  (∀ calls w', notify orderId status s w = (calls, (Normal tt, w')) →
               calls = call_on orderId status <$> observers s)
  ∧ ((∀ o, o ∈ observers s → ∀ w0, (onStatusChanged o orderId status w0).1 = Normal tt) →
     ∃ w', notify orderId status s w
           = (call_on orderId status <$> observers s, (Normal tt, w')))
  ∧ (∀ pre o post calls w1 e w2,
       observers s = pre ++ o :: post →
       notify_loop pre orderId status w = (calls, (Normal tt, w1)) →
       onStatusChanged o orderId status w1 = (Throw e, w2) →
       notify orderId status s w
       = (call_on orderId status <$> (pre ++ [o]), (Throw e, w2))).
Proof.
  unfold notify. split_and!.
  - intros calls w'. apply notify_loop_normal.
  - apply notify_loop_no_throw.
  - intros pre o post calls w1 e w2 ->. apply notify_loop_throw.
Qed.

(** C5, the claim as stated fails: with a throwing observer attached before
    a printing one, [notify] calls the first only; the second is attached
    and gets no call, and nothing is printed. *)
Lemma notify_does_not_isolate :
  observers demo_subject_failing_first = [failing_observer; printing_observer]
  ∧ notify "o1" "READY" demo_subject_failing_first []
    = ([(1, "o1", "READY")], (Throw "boom", []))
  ∧ ¬ delivers_to_all "o1" "READY" demo_subject_failing_first [].
Proof.
  split_and!; [reflexivity..|].
  intros H. specialize (H printing_observer).
  cbn in H. apply list_elem_of_singleton in H; [done|].
  right. left.
Qed.

(** C7. [attach] has set-like membership: attaching an observer a second
    time changes nothing.  On a subject built from the constructor by any
    [attach] and [detach] calls, after attaching [o] twice the
    registrations are pairwise distinct, a [notify] never calls [o] more
    than once, and a [notify] that returns has called [o] exactly once; on
    a fresh subject with [o] attached twice, [notify] makes exactly one
    call, on [o].  [detach] of an observer that is not registered leaves the
    subject as it was. *)
Theorem attach_set_like_detach_noop {W} (calls : list (registration W))
    (s : OrderSubject W) (o : observer W) :
  attach o (attach o s) = attach o s
  ∧ NoDup (ref <$> observers (attach o (attach o (register calls OrderSubject_new))))
  ∧ (∀ orderId status w,
       times_invoked o
         (notify orderId status (attach o (attach o (register calls OrderSubject_new))) w).1
       ≤ 1)
  ∧ (∀ orderId status w trace w',
       notify orderId status (attach o (attach o (register calls OrderSubject_new))) w
         = (trace, (Normal tt, w')) →
       times_invoked o trace = 1)
  ∧ (∀ orderId status w,
       (notify orderId status (attach o (attach o OrderSubject_new)) w).1
       = [call_on orderId status o])
  ∧ (ref o ∉ ref <$> observers s → detach o s = s).
Proof.
  assert (Hnodup : NoDup (ref <$> observers
            (attach o (attach o (register calls OrderSubject_new))))).
  { do 2 apply attach_NoDup. apply register_NoDup. }
  split_and!.
  - apply attach_idemp.
  - exact Hnodup.
  - intros orderId status w. unfold notify.
    destruct (notify_loop_prefix
                (observers (attach o (attach o (register calls OrderSubject_new))))
                orderId status w) as [rest E].
    pose proof (times_invoked_once o _ orderId status Hnodup (attach_elem _ _)) as H1.
    rewrite E, times_invoked_app in H1. lia.
  - intros orderId status w trace w' H. apply notify_loop_normal in H as ->.
    apply times_invoked_once; [exact Hnodup | apply attach_elem].
  - intros orderId status w. unfold notify.
    rewrite attach_idemp, attach_fresh by apply not_elem_of_nil. cbn.
    by destruct (onStatusChanged o orderId status w) as [[[]|e] w1].
  - apply detach_unregistered.
Qed.

(** ** Abstract base classes *)

(** C6. Calling a base operation of the strategy or of a repository throws,
    whatever the arguments: [PricingStrategy.computeTotal] and every method
    of [MenuRepository] and [OrderRepository].  The base
    [OrderObserver.onStatusChanged] does not: its body is empty, so the call
    returns normally and changes nothing. *)
Theorem base_operations_throw_except_observer {W} (items : list CartItem.t)
    (menu : list MenuItem.t) (item : MenuItem.t) (order : Order.t)
    (id orderId status : string) (available : bool) (w : W) :
  PricingStrategy.computeTotal items menu = Throw "computeTotal must be implemented"
  ∧ MenuRepository.findAll = Throw "Not implemented"
  ∧ MenuRepository.findById id = Throw "Not implemented"
  ∧ MenuRepository.save item = Throw "Not implemented"
  ∧ MenuRepository.toggleAvailability id available = Throw "Not implemented"
  ∧ OrderRepository.save order = Throw "Not implemented"
  ∧ OrderRepository.findById id = Throw "Not implemented"
  ∧ OrderRepository.findByStatus status = Throw "Not implemented"
  ∧ OrderRepository.updateStatus id status = Throw "Not implemented"
  ∧ onStatusChanged (OrderObserver_new 0) orderId status w = (Normal tt, w).
Proof. by split_and!. Qed.

(** ** Menu repository *)

Lemma save_absent item repo :
  list_find (λ m, MenuItem.id m = MenuItem.id item) (SqliteMenuRepository._items repo) = None →
  SqliteMenuRepository._items (SqliteMenuRepository.save item repo) =
  SqliteMenuRepository._items repo ++ [item].
Proof.
  intros H. unfold SqliteMenuRepository.save, JsArray.findIndex. by rewrite H.
Qed.

Lemma save_present item repo i old :
  list_find (λ m, MenuItem.id m = MenuItem.id item) (SqliteMenuRepository._items repo)
    = Some (i, old) →
  SqliteMenuRepository._items (SqliteMenuRepository.save item repo) =
  <[i := item]> (SqliteMenuRepository._items repo).
Proof.
  intros H. unfold SqliteMenuRepository.save, JsArray.findIndex. rewrite H.
  destruct (Z.leb_spec 0 (Z.of_nat i)); [|lia]. cbn. by rewrite Nat2Z.id.
Qed.

Lemma findById_save item repo :
  SqliteMenuRepository.findById (MenuItem.id item) (SqliteMenuRepository.save item repo)
  = Some item.
Proof.
  unfold SqliteMenuRepository.findById, JsArray.find.
  destruct (list_find (λ m, MenuItem.id m = MenuItem.id item)
              (SqliteMenuRepository._items repo)) as [[i old]|] eqn:E.
  - rewrite (save_present _ _ _ _ E).
    apply list_find_Some in E as (Hi & _ & Hleast).
    assert (list_find (λ m, MenuItem.id m = MenuItem.id item)
              (<[i:=item]> (SqliteMenuRepository._items repo)) = Some (i, item)) as ->; [|done].
    apply list_find_Some. split_and!; [|done|].
    + apply list_lookup_insert_eq. by eapply lookup_lt_Some.
    + intros j m Hj Hlt. rewrite list_lookup_insert_ne in Hj by lia. by eapply Hleast.
  - rewrite (save_absent _ _ E).
    rewrite list_find_app_r by done. cbn. by rewrite decide_True.
Qed.

(** C8. [save] is an upsert by id.  When no stored item has the id of
    [item], [findAll()] grows by exactly one element, [item], added at the
    end.  When some stored item has that id, the length of [findAll()] is
    unchanged and the first stored record with that id is replaced by
    [item], every other record staying where it was.  Either way,
    [findById] of that id then gives [item]. *)
Theorem menu_save_upsert (item : MenuItem.t) (repo : SqliteMenuRepository.t) :
  let before := SqliteMenuRepository.findAll repo in
  let after := SqliteMenuRepository.findAll (SqliteMenuRepository.save item repo) in
  ((∀ m, m ∈ before → MenuItem.id m ≠ MenuItem.id item) →
     length after = S (length before) ∧ after = before ++ [item])
  ∧ ((∃ m, m ∈ before ∧ MenuItem.id m = MenuItem.id item) →
     length after = length before
     ∧ ∃ i old, before !! i = Some old
                ∧ MenuItem.id old = MenuItem.id item
                ∧ (∀ j m, j < i → before !! j = Some m → MenuItem.id m ≠ MenuItem.id item)
                ∧ after = <[i := item]> before
                ∧ after !! i = Some item)
  ∧ SqliteMenuRepository.findById (MenuItem.id item) (SqliteMenuRepository.save item repo)
    = Some item.
Proof.
  cbv zeta. unfold SqliteMenuRepository.findAll. split_and!.
  - intros H.
    assert (list_find (λ m, MenuItem.id m = MenuItem.id item)
              (SqliteMenuRepository._items repo) = None) as E.
    { apply list_find_None, Forall_forall. exact H. }
    rewrite (save_absent _ _ E). split; [|done].
    rewrite length_app. cbn. lia.
  - intros (m & Hm & Em).
    destruct (list_find_elem_of (λ m, MenuItem.id m = MenuItem.id item) _ m Hm Em)
      as [[i old] E].
    rewrite (save_present _ _ _ _ E).
    apply list_find_Some in E as (Hi & Ei & Hleast).
    split; [apply length_insert|].
    exists i, old. split_and!; [done|done| |done|].
    + intros j m' Hlt Hj. by eapply Hleast.
    + apply list_lookup_insert_eq. by eapply lookup_lt_Some.
  - apply findById_save.
Qed.

(** * The properties at work on sample data *)

Example demo_cart_after_calls :
  Cart.items (addItems demo_calls Cart.new) = [CartItem.mk "m1" 4; CartItem.mk "m2" 2].
Proof. reflexivity. Qed.

(** The cart property on five calls, two of them rejected. *)
Lemma cart_addItem_sums_positive_qtys_witness :
  Forall (λ call, PrimFloat.is_nan call.2 = false) demo_calls
  ∧ NoDup (CartItem.menuItemId <$> Cart.items (addItems demo_calls Cart.new))
  ∧ (∀ id, entries_for id (addItems demo_calls Cart.new) =
           match sum_in_order (positive_qtys id demo_calls) with
           | Some q => [CartItem.mk id q]
           | None => []
           end)
  ∧ (∀ id qty c, (qty <=? 0)%float = true → Cart.addItem id qty c = c).
Proof.
  assert (H : Forall (λ call, PrimFloat.is_nan call.2 = false) demo_calls)
    by (repeat constructor).
  split; [exact H | exact (cart_addItem_sums_positive_qtys demo_calls H)].
Defined.

Example demo_mixed_cart_total :
  ComboPricingStrategy.loop demo_cart_mixed demo_menu = (7, 2)%float
  ∧ ComboPricingStrategy.computeTotal demo_cart_mixed demo_menu = Normal 7%float.
Proof. split; reflexivity. Qed.

(** Both branches of the discount: four burgers reach the threshold, two
    burgers and an unavailable pizza slice do not. *)
Lemma combo_computeTotal_discount_witness :
  (3 <=? matched_qty demo_cart_large demo_menu)%float = true
  ∧ ComboPricingStrategy.computeTotal demo_cart_large demo_menu = Normal (14 * 0.9)%float
  ∧ (matched_qty demo_cart_small demo_menu <? 3)%float = true
  ∧ ComboPricingStrategy.computeTotal demo_cart_small demo_menu =
    SimplePricingStrategy.computeTotal demo_cart_small demo_menu.
Proof.
  destruct (combo_computeTotal_discount demo_cart_large demo_menu)
    as (total & Hsimple & _ & Hdiscount & _).
  destruct (combo_computeTotal_discount demo_cart_small demo_menu)
    as (_ & _ & _ & _ & Hsame).
  injection Hsimple as <-.
  split_and!; [reflexivity | exact (Hdiscount eq_refl) | reflexivity | exact (Hsame eq_refl)].
Defined.

(** Fourteen items in the cart, two of them matched: no discount. *)
Lemma combo_threshold_counts_matched_only_witness :
  (sum_from_zero (CartItem.quantity <$>
     (filter (λ ci, matchedb demo_menu ci = true) demo_cart_mixed)) <? 3)%float = true
  ∧ ComboPricingStrategy.computeTotal demo_cart_mixed demo_menu =
    SimplePricingStrategy.computeTotal demo_cart_mixed demo_menu.
Proof.
  split; [reflexivity|].
  exact (proj2 (proj2 (proj2 (proj2
    (combo_threshold_counts_matched_only demo_cart_mixed demo_menu)))) eq_refl).
Defined.

(** An order taken from [RECEIVED] to the end, and an order whose status
    is not in the list. *)
Lemma advanceStatus_linear_witness :
  Order.status (demo_order "RECEIVED") = OrderStatus.RECEIVED
  ∧ Order.status (advance_times 4 (demo_order "RECEIVED")) = OrderStatus.PICKED_UP
  ∧ advance_times 5 (demo_order "RECEIVED") = advance_times 4 (demo_order "RECEIVED")
  ∧ (Order.status (demo_order "CANCELLED") ∉ Order.flow)
  ∧ Order.advanceStatus (demo_order "CANCELLED") = demo_order "CANCELLED".
Proof.
  destruct (advanceStatus_linear (demo_order "RECEIVED")) as (_ & _ & Hrun).
  destruct (Hrun eq_refl) as (_ & _ & _ & H4 & H5).
  destruct (advanceStatus_linear (demo_order "CANCELLED")) as (_ & Hout & _).
  assert (Hnot : Order.status (demo_order "CANCELLED") ∉ Order.flow).
  { intros H. repeat (apply elem_of_cons in H as [H|H]; [discriminate H|]).
    by apply elem_of_nil in H. }
  split_and!; [reflexivity | exact H4 | exact H5 | exact Hnot | exact (Hout (or_intror Hnot))].
Defined.

(** Three observers, the second of which throws: the first two are called,
    the third is not. *)
Lemma notify_in_order_until_throw_witness :
  observers demo_subject = [printing_observer] ++ failing_observer :: [OrderObserver_new 3]
  ∧ notify "o1" "READY" demo_subject []
    = ([(2, "o1", "READY"); (1, "o1", "READY")], (Throw "boom", ["Order o1 -> READY"])).
Proof.
  split; [reflexivity|].
  exact (proj2 (proj2 (notify_in_order_until_throw "o1" "READY" demo_subject []))
           [printing_observer] failing_observer [OrderObserver_new 3]
           [(2, "o1", "READY")] ["Order o1 -> READY"] "boom" ["Order o1 -> READY"]
           eq_refl eq_refl eq_refl).
Defined.

(** Detaching an observer that was never attached, and notifying after a
    double [attach]. *)
Lemma attach_set_like_detach_noop_witness :
  (ref failing_observer ∉ ref <$> observers demo_subject_quiet)
  ∧ detach failing_observer demo_subject_quiet = demo_subject_quiet
  ∧ notify "o1" "READY"
      (attach printing_observer (attach printing_observer
         (register [Attach (OrderObserver_new 3)] OrderSubject_new))) []
    = ([(3, "o1", "READY"); (2, "o1", "READY")], (Normal tt, ["Order o1 -> READY"]))
  ∧ times_invoked printing_observer [(3, "o1", "READY"); (2, "o1", "READY")] = 1.
Proof.
  assert (Hnot : ref failing_observer ∉ ref <$> observers demo_subject_quiet).
  { intros H. apply elem_of_cons in H as [H|H]; [discriminate H | by apply elem_of_nil in H]. }
  destruct (attach_set_like_detach_noop [Attach (OrderObserver_new 3)]
              demo_subject_quiet failing_observer)
    as (_ & _ & _ & _ & _ & Hdetach).
  destruct (attach_set_like_detach_noop [Attach (OrderObserver_new 3)]
              demo_subject_quiet printing_observer)
    as (_ & _ & _ & Honce & _ & _).
  split_and!; [exact Hnot | exact (Hdetach Hnot) | reflexivity |].
  exact (Honce "o1" "READY" [] [(3, "o1", "READY"); (2, "o1", "READY")]
           ["Order o1 -> READY"] eq_refl).
Defined.

Example demo_save :
  SqliteMenuRepository.findAll (SqliteMenuRepository.save demo_fries demo_repo)
    = demo_menu ++ [demo_fries]
  ∧ SqliteMenuRepository.findAll (SqliteMenuRepository.save demo_pizza_back demo_repo)
    = [MenuItem.mk "m1" "Burger" 3.5 "MAIN" ["HALAL"] true; demo_pizza_back].
Proof. split; reflexivity. Qed.

(** Saving an item with a new id, then one with an id already stored. *)
Lemma menu_save_upsert_witness :
  (∀ m, m ∈ SqliteMenuRepository.findAll demo_repo → MenuItem.id m ≠ MenuItem.id demo_fries)
  ∧ length (SqliteMenuRepository.findAll (SqliteMenuRepository.save demo_fries demo_repo)) = 3
  ∧ (∃ m, m ∈ SqliteMenuRepository.findAll demo_repo
          ∧ MenuItem.id m = MenuItem.id demo_pizza_back)
  ∧ length (SqliteMenuRepository.findAll (SqliteMenuRepository.save demo_pizza_back demo_repo))
    = 2.
Proof.
  assert (Habsent : ∀ m, m ∈ SqliteMenuRepository.findAll demo_repo →
                         MenuItem.id m ≠ MenuItem.id demo_fries).
  { intros m H. repeat (apply elem_of_cons in H as [->|H]; [discriminate|]).
    by apply elem_of_nil in H. }
  assert (Hpresent : ∃ m, m ∈ SqliteMenuRepository.findAll demo_repo
                          ∧ MenuItem.id m = MenuItem.id demo_pizza_back).
  { eexists. split; [right; left | reflexivity]. }
  destruct (menu_save_upsert demo_fries demo_repo) as (Hnew & _ & _).
  destruct (menu_save_upsert demo_pizza_back demo_repo) as (_ & Hold & _).
  split_and!; [exact Habsent | exact (proj1 (Hnew Habsent)) | exact Hpresent
              | exact (proj1 (Hold Hpresent))].
Defined.

(** * Further properties of the code *)

(** ** Cart: [removeItem] and its interplay with [addItem] *)

Lemma bump_remove id qty (l : list CartItem.t) :
  filter (λ ci, CartItem.menuItemId ci ≠ id) (bump id qty l) =
  filter (λ ci, CartItem.menuItemId ci ≠ id) l.
Proof.
  induction l as [|ci l IH]; cbn [bump].
  - rewrite filter_cons, !filter_nil. by rewrite decide_False by (cbn; tauto).
  - destruct (decide (CartItem.menuItemId ci = id)) as [E|N].
    + rewrite !filter_cons. cbn [CartItem.menuItemId].
      by rewrite !decide_False by tauto.
    + rewrite !filter_cons, IH. done.
Qed.

(** X1. [removeItem(id)] keeps exactly the entries whose id is not [id],
    in their order: nothing with [id] is left, every other entry stays, and
    a second [removeItem(id)] changes nothing more. *)
Theorem removeItem_removes_exactly (id : string) (c : Cart.t) :
  (∀ ci, ci ∈ Cart.items (Cart.removeItem id c) ↔
         ci ∈ Cart.items c ∧ CartItem.menuItemId ci ≠ id)
  ∧ Cart.items (Cart.removeItem id c) `sublist_of` Cart.items c
  ∧ entries_for id (Cart.removeItem id c) = []
  ∧ (∀ id', id' ≠ id → entries_for id' (Cart.removeItem id c) = entries_for id' c)
  ∧ Cart.removeItem id (Cart.removeItem id c) = Cart.removeItem id c.
Proof.
  destruct c as [l]. unfold Cart.removeItem, entries_for. cbn [Cart.items].
  split_and!.
  - intros ci. rewrite list_elem_of_filter. tauto.
  - apply sublist_filter.
  - induction l as [|ci l IH]; [done|].
    rewrite filter_cons. destruct (decide (CartItem.menuItemId ci ≠ id)) as [N|E]; [|done].
    rewrite filter_cons, decide_False by done. done.
  - intros id' N. induction l as [|ci l IH]; [done|].
    rewrite !filter_cons. destruct (decide (CartItem.menuItemId ci ≠ id)) as [N'|E].
    + rewrite filter_cons, IH. done.
    + rewrite decide_False; [done|]. intros E'. apply E. congruence.
  - f_equal. induction l as [|ci l IH]; [done|].
    rewrite filter_cons. destruct (decide (CartItem.menuItemId ci ≠ id)) as [N|E]; [|done].
    rewrite filter_cons, decide_True by done. by rewrite IH.
Qed.

(** X2. [removeItem] of an id the cart does not hold leaves the cart as it was. *)
Theorem removeItem_absent (id : string) (c : Cart.t) :
  id ∉ CartItem.menuItemId <$> Cart.items c → Cart.removeItem id c = c.
Proof.
  destruct c as [l]. unfold Cart.removeItem. cbn [Cart.items]. intros H. f_equal.
  induction l as [|ci l IH]; [done|].
  rewrite fmap_cons, not_elem_of_cons in H. destruct H as [N Hl].
  rewrite filter_cons, decide_True by done. by rewrite IH.
Qed.

Lemma removeItem_absent_witness :
  ("m9" ∉ CartItem.menuItemId <$> Cart.items (addItems demo_calls Cart.new))
  ∧ Cart.removeItem "m9" (addItems demo_calls Cart.new) = addItems demo_calls Cart.new.
Proof.
  assert (H : "m9" ∉ CartItem.menuItemId <$> Cart.items (addItems demo_calls Cart.new)).
  { intros H. repeat (apply elem_of_cons in H as [H|H]; [discriminate H|]).
    by apply elem_of_nil in H. }
  split; [exact H | exact (removeItem_absent "m9" _ H)].
Defined.

(** X3. Removing an id right after adding it gives the cart that removing
    it without the addition gives, whatever the quantity; on a cart that
    did not hold the id, the pair of calls changes nothing. *)
Theorem removeItem_after_addItem (id : string) (qty : float) (c : Cart.t) :
  Cart.removeItem id (Cart.addItem id qty c) = Cart.removeItem id c.
Proof.
  destruct (qty <=? 0)%float eqn:G.
  - by rewrite addItem_rejected.
  - unfold Cart.removeItem. rewrite addItem_accepted by done. by rewrite bump_remove.
Qed.

(** X4. [addItem] touches one id only: the entries for every other id are
    as before, no id is dropped or moved, and the array grows by at most
    one entry, which is then the last and carries the added id. *)
Theorem addItem_frame (id : string) (qty : float) (c : Cart.t) :
  (∀ id', id' ≠ id → entries_for id' (Cart.addItem id qty c) = entries_for id' c)
  ∧ (CartItem.menuItemId <$> Cart.items (Cart.addItem id qty c)
       = CartItem.menuItemId <$> Cart.items c
     ∨ Cart.items (Cart.addItem id qty c) = Cart.items c ++ [CartItem.mk id qty]
       ∧ id ∉ CartItem.menuItemId <$> Cart.items c).
Proof.
  destruct (qty <=? 0)%float eqn:G.
  - rewrite addItem_rejected by done. split; [done | by left].
  - split.
    + intros id' N. unfold entries_for. rewrite addItem_accepted by done.
      rewrite bump_filter. by rewrite decide_False.
    + rewrite addItem_accepted by done.
      destruct (decide (id ∈ CartItem.menuItemId <$> Cart.items c)) as [I|I].
      * left. rewrite bump_ids. by rewrite decide_True.
      * right. split; [|done]. clear G. induction (Cart.items c) as [|ci l IH]; [done|].
        rewrite fmap_cons, not_elem_of_cons in I. destruct I as [N Il].
        cbn [bump]. rewrite decide_False by congruence. by rewrite IH.
Qed.

(** ** Order: [calculateTotal] and repeated [advanceStatus] *)



Lemma advance_times_fields n o :
  Order.id (advance_times n o) = Order.id o
  ∧ Order.userId (advance_times n o) = Order.userId o
  ∧ Order.items (advance_times n o) = Order.items o
  ∧ Order.pickupTime (advance_times n o) = Order.pickupTime o
  ∧ Order.total (advance_times n o) = Order.total o.
Proof.
  induction n as [|n IH]; [done|].
  rewrite advance_times_S, advanceStatus_next. cbn. exact IH.
Qed.

Lemma next_status_flow s : s ∈ Order.flow → next_status s ∈ Order.flow.
Proof.
  unfold Order.flow. intros H.
  repeat (apply elem_of_cons in H as [->|H]; [cbv; repeat constructor|]).
  by apply elem_of_nil in H.
Qed.

Lemma advance_times_status n o :
  Order.status (advance_times n o) = Nat.iter n next_status (Order.status o).
Proof.
  induction n as [|n IH]; [done|].
  rewrite advance_times_S, advanceStatus_next. cbn. by rewrite IH.
Qed.

Lemma next_status_terminal n : Nat.iter n next_status OrderStatus.PICKED_UP = OrderStatus.PICKED_UP.
Proof.
  induction n as [|n IH]; [done|].
  change (next_status (Nat.iter n next_status OrderStatus.PICKED_UP) = OrderStatus.PICKED_UP).
  by rewrite IH.
Qed.

(** X6. From any of the four statuses, three or more calls of
    [advanceStatus] end in [PICKED_UP]: the terminal status is always
    reached and never left. *)
Theorem advanceStatus_reaches_terminal (o : Order.t) (n : nat) :
  Order.status o ∈ Order.flow → 3 ≤ n →
  Order.status (advance_times n o) = OrderStatus.PICKED_UP.
Proof.
  intros H Hn. rewrite advance_times_status.
  replace n with ((n - 3) + 3) by lia. rewrite Nat.iter_add.
  assert (Nat.iter 3 next_status (Order.status o) = OrderStatus.PICKED_UP) as ->;
    [|apply next_status_terminal].
  unfold Order.flow in H.
  repeat (apply elem_of_cons in H as [->|H]; [reflexivity|]).
  by apply elem_of_nil in H.
Qed.

Lemma advanceStatus_reaches_terminal_witness :
  Order.status (demo_order "PREPARING") ∈ Order.flow
  ∧ 3 ≤ 7
  ∧ Order.status (advance_times 7 (demo_order "PREPARING")) = OrderStatus.PICKED_UP.
Proof.
  assert (H : Order.status (demo_order "PREPARING") ∈ Order.flow) by (right; left).
  assert (Hn : 3 ≤ 7) by lia.
  split_and!; [exact H | exact Hn | exact (advanceStatus_reaches_terminal _ 7 H Hn)].
Defined.

(** X7. However often it is called, [advanceStatus] changes the status
    only: id, user, items, pickup time and total stay; a status of the list
    stays in the list, and a status outside the list stays what it is. *)
Theorem advanceStatus_changes_status_only (o : Order.t) (n : nat) :
  Order.id (advance_times n o) = Order.id o
  ∧ Order.userId (advance_times n o) = Order.userId o
  ∧ Order.items (advance_times n o) = Order.items o
  ∧ Order.pickupTime (advance_times n o) = Order.pickupTime o
  ∧ Order.total (advance_times n o) = Order.total o
  ∧ (Order.status o ∈ Order.flow → Order.status (advance_times n o) ∈ Order.flow)
  ∧ (Order.status o ∉ Order.flow → advance_times n o = o).
Proof.
  pose proof (advance_times_fields n o) as (H1 & H2 & H3 & H4 & H5).
  split_and!; try done; clear H1 H2 H3 H4 H5.
  - intros H. induction n as [|n IH]; [done|].
    rewrite advance_times_S, advanceStatus_next. cbn [Order.with_status Order.status].
    by apply next_status_flow.
  - intros H. induction n as [|n IH]; [done|].
    rewrite advance_times_S, IH. apply advanceStatus_outside. by right.
Qed.

(** ** Pricing: what does not count *)

Lemma matchedb_false menu ci : ¬ matched menu ci → matchedb menu ci = false.
Proof.
  intros H. destruct (matchedb menu ci) eqn:E; [|done].
  by apply matchedb_matched in E.
Qed.

Lemma filter_matched_skip menu ci (items1 items2 : list CartItem.t) :
  matchedb menu ci = false →
  filter (λ ci, matchedb menu ci = true) (items1 ++ ci :: items2) =
  filter (λ ci, matchedb menu ci = true) (items1 ++ items2).
Proof.
  intros H. rewrite !filter_app, filter_cons.
  by rewrite decide_False by (rewrite H; done).
Qed.

Lemma filter_matched_none menu (items : list CartItem.t) :
  Forall (λ ci, ¬ matched menu ci) items →
  filter (λ ci, matchedb menu ci = true) items = [].
Proof.
  induction 1 as [|ci items H _ IH]; [done|].
  rewrite filter_cons, decide_False; [done|].
  by rewrite (matchedb_false _ _ H).
Qed.

Lemma simple_computeTotal_matched_only items menu :
  SimplePricingStrategy.computeTotal items menu =
  SimplePricingStrategy.computeTotal (filter (λ ci, matchedb menu ci = true) items) menu.
Proof.
  unfold SimplePricingStrategy.computeTotal. by rewrite <- simple_loop_matched_only.
Qed.

Lemma combo_computeTotal_matched_only items menu :
  ComboPricingStrategy.computeTotal items menu =
  ComboPricingStrategy.computeTotal (filter (λ ci, matchedb menu ci = true) items) menu.
Proof.
  rewrite !combo_computeTotal_unfold. unfold matched_qty.
  by rewrite filter_matched_idemp, <- simple_loop_matched_only.
Qed.

(** X8. A cart item that no available menu item prices (its id is unknown,
    or the first menu item with its id is not available) can be put
    anywhere in the cart or taken out of it: neither strategy's total
    changes. *)
Theorem unmatched_item_is_neutral (menu : list MenuItem.t) (ci : CartItem.t)
    (items1 items2 : list CartItem.t) :
  ¬ matched menu ci →
  SimplePricingStrategy.computeTotal (items1 ++ ci :: items2) menu =
    SimplePricingStrategy.computeTotal (items1 ++ items2) menu
  ∧ ComboPricingStrategy.computeTotal (items1 ++ ci :: items2) menu =
    ComboPricingStrategy.computeTotal (items1 ++ items2) menu.
Proof.
  intros H%matchedb_false. split.
  - rewrite (simple_computeTotal_matched_only (items1 ++ ci :: items2)).
    rewrite (simple_computeTotal_matched_only (items1 ++ items2)).
    by rewrite filter_matched_skip.
  - rewrite (combo_computeTotal_matched_only (items1 ++ ci :: items2)).
    rewrite (combo_computeTotal_matched_only (items1 ++ items2)).
    by rewrite filter_matched_skip.
Qed.

Lemma demo_pizza_unmatched : ¬ matched demo_menu (CartItem.mk "m2" 5).
Proof. intros H%matchedb_matched. discriminate H. Qed.

Lemma unmatched_item_is_neutral_witness :
  ¬ matched demo_menu (CartItem.mk "m2" 5)
  ∧ SimplePricingStrategy.computeTotal ([] ++ CartItem.mk "m2" 5 :: demo_cart_large) demo_menu
    = SimplePricingStrategy.computeTotal ([] ++ demo_cart_large) demo_menu
  ∧ ComboPricingStrategy.computeTotal ([] ++ CartItem.mk "m2" 5 :: demo_cart_large) demo_menu
    = ComboPricingStrategy.computeTotal ([] ++ demo_cart_large) demo_menu.
Proof.
  split; [exact demo_pizza_unmatched|].
  exact (unmatched_item_is_neutral demo_menu (CartItem.mk "m2" 5) [] demo_cart_large
           demo_pizza_unmatched).
Defined.

(** X9. When no cart item is priced by an available menu item (an empty
    cart, an empty menu, a menu with nothing available, or only unknown
    ids), both strategies return exactly 0 and Combo applies no discount. *)
Theorem nothing_matched_total_zero (items : list CartItem.t) (menu : list MenuItem.t) :
  Forall (λ ci, ¬ matched menu ci) items →
  SimplePricingStrategy.computeTotal items menu = Normal 0%float
  ∧ ComboPricingStrategy.computeTotal items menu = Normal 0%float.
Proof.
  intros H%filter_matched_none. split.
  - rewrite simple_computeTotal_matched_only. by rewrite H.
  - rewrite combo_computeTotal_matched_only. by rewrite H.
Qed.

Lemma nothing_matched_total_zero_witness :
  Forall (λ ci, ¬ matched [] ci) demo_cart_mixed
  ∧ SimplePricingStrategy.computeTotal demo_cart_mixed [] = Normal 0%float
  ∧ ComboPricingStrategy.computeTotal demo_cart_mixed [] = Normal 0%float.
Proof.
  assert (H : Forall (λ ci, ¬ matched [] ci) demo_cart_mixed).
  { apply Forall_forall. intros ci _ Hm%matchedb_matched. discriminate Hm. }
  split; [exact H | exact (nothing_matched_total_zero demo_cart_mixed [] H)].
Defined.

Lemma find_shadowed (menu extra : list MenuItem.t) (mid : string) :
  Forall (λ m, MenuItem.id m ∈ MenuItem.id <$> menu) extra →
  list_find (λ m, MenuItem.id m = mid) (menu ++ extra) =
  list_find (λ m, MenuItem.id m = mid) menu.
Proof.
  intros H. destruct (list_find (λ m, MenuItem.id m = mid) menu) as [[i mi]|] eqn:E.
  - by apply list_find_app_l.
  - apply list_find_app_None. split; [done|].
    apply list_find_None. apply list_find_None in E.
    eapply Forall_impl; [exact H|]. intros m (m' & Em & Hm')%list_elem_of_fmap Hid.
    eapply Forall_forall in E; [|exact Hm']. cbn in E. congruence.
Qed.

Lemma foldl_ext_all {A B} (f g : A → B → A) (l : list B) (a : A) :
  (∀ a b, f a b = g a b) → foldl f a l = foldl g a l.
Proof.
  intros H. revert a. induction l as [|b l IH]; intros a; [done|].
  cbn. by rewrite H, IH.
Qed.

(** X10. A menu entry is found by the first item that has its id: items
    added at the end of the menu under ids the menu already has are never
    looked at, and neither strategy's total changes. *)
Theorem shadowed_menu_items_ignored (items : list CartItem.t) (menu extra : list MenuItem.t) :
  Forall (λ m, MenuItem.id m ∈ MenuItem.id <$> menu) extra →
  SimplePricingStrategy.computeTotal items (menu ++ extra) =
    SimplePricingStrategy.computeTotal items menu
  ∧ ComboPricingStrategy.computeTotal items (menu ++ extra) =
    ComboPricingStrategy.computeTotal items menu.
Proof.
  intros H. split.
  - unfold SimplePricingStrategy.computeTotal. f_equal. apply foldl_ext_all.
    intros total ci. unfold SimplePricingStrategy.step, JsArray.find.
    by rewrite (find_shadowed _ _ _ H).
  - unfold ComboPricingStrategy.computeTotal, ComboPricingStrategy.loop.
    rewrite (foldl_ext_all (ComboPricingStrategy.step (menu ++ extra))
               (ComboPricingStrategy.step menu)); [done|].
    intros [total qtySum] ci. unfold ComboPricingStrategy.step, JsArray.find.
    by rewrite (find_shadowed _ _ _ H).
Qed.

Lemma shadowed_menu_items_ignored_witness :
  Forall (λ m, MenuItem.id m ∈ MenuItem.id <$> demo_menu) [demo_pizza_back]
  ∧ SimplePricingStrategy.computeTotal demo_cart_small (demo_menu ++ [demo_pizza_back])
    = SimplePricingStrategy.computeTotal demo_cart_small demo_menu
  ∧ ComboPricingStrategy.computeTotal demo_cart_small (demo_menu ++ [demo_pizza_back])
    = ComboPricingStrategy.computeTotal demo_cart_small demo_menu.
Proof.
  assert (H : Forall (λ m, MenuItem.id m ∈ MenuItem.id <$> demo_menu) [demo_pizza_back]).
  { repeat constructor. }
  split; [exact H | exact (shadowed_menu_items_ignored demo_cart_small demo_menu _ H)].
Defined.

(** ** Observers: [detach] *)

(** X11. After [detach(o)] the observer [o] is not registered and no
    [notify] calls it; every other registration stays, in the same order. *)
Theorem detach_removes {W} (o : observer W) (s : OrderSubject W) :
  (ref o ∉ ref <$> observers (detach o s))
  ∧ (∀ x, x ∈ observers (detach o s) ↔ x ∈ observers s ∧ ref x ≠ ref o)
  ∧ observers (detach o s) `sublist_of` observers s
  ∧ (∀ orderId status w, times_invoked o (notify orderId status (detach o s) w).1 = 0).
Proof.
  assert (Hnot : ref o ∉ ref <$> observers (detach o s)).
  { unfold detach. cbn. intros (x & E & [Hx _]%list_elem_of_filter)%list_elem_of_fmap.
    by apply Hx. }
  split_and!.
  - exact Hnot.
  - intros x. unfold detach. cbn. rewrite list_elem_of_filter. tauto.
  - apply sublist_filter.
  - intros orderId status w. unfold notify.
    destruct (notify_loop_prefix (observers (detach o s)) orderId status w) as [rest E].
    pose proof (times_invoked_absent o _ orderId status Hnot) as H0.
    rewrite E, times_invoked_app in H0. lia.
Qed.

(** X12. Attaching an observer that was not registered and detaching it
    again gives back the subject as it was. *)
Theorem detach_after_attach {W} (o : observer W) (s : OrderSubject W) :
  ref o ∉ ref <$> observers s → detach o (attach o s) = s.
Proof.
  intros H. destruct s as [l]. unfold detach. rewrite attach_fresh by done.
  cbn in *. f_equal. rewrite filter_app, filter_cons, filter_nil.
  rewrite decide_False by tauto. rewrite app_nil_r.
  induction l as [|x l IH]; [done|].
  rewrite fmap_cons, not_elem_of_cons in H. destruct H as [Hx Hl].
  rewrite filter_cons, decide_True by done. by rewrite IH.
Qed.

Lemma detach_after_attach_witness :
  (ref failing_observer ∉ ref <$> observers demo_subject_quiet)
  ∧ detach failing_observer (attach failing_observer demo_subject_quiet) = demo_subject_quiet.
Proof.
  assert (Hnot : ref failing_observer ∉ ref <$> observers demo_subject_quiet).
  { intros H. apply elem_of_cons in H as [H|H]; [discriminate H | by apply elem_of_nil in H]. }
  split; [exact Hnot | exact (detach_after_attach failing_observer demo_subject_quiet Hnot)].
Defined.

(** ** Arrays: finding after an update *)

Section FindUpdate.
Context {A : Type} (P : A → Prop) `{!∀ x, Decision (P x)}.

Lemma alter_insert (f : A → A) (l : list A) i x :
  l !! i = Some x → alter f i l = <[i := f x]> l.
Proof.
  revert i. induction l as [|y l IH]; intros [|i] Hl; try done.
  - cbn in Hl. by injection Hl as ->.
  - cbn in *. f_equal. by apply IH.
Qed.

Lemma list_find_insert_hit (l : list A) i old x :
  list_find P l = Some (i, old) → P x → list_find P (<[i:=x]> l) = Some (i, x).
Proof.
  intros (Hi & _ & Hleast)%list_find_Some Hx.
  apply list_find_Some. split_and!; [|done|].
  - apply list_lookup_insert_eq. by eapply lookup_lt_Some.
  - intros j y Hj Hlt. rewrite list_lookup_insert_ne in Hj by lia. by eapply Hleast.
Qed.

Lemma list_find_insert_miss (l : list A) i old x :
  l !! i = Some old → ¬ P old → ¬ P x → list_find P (<[i:=x]> l) = list_find P l.
Proof.
  revert i. induction l as [|y l IH]; intros [|i] Hl Hold Hx; try done.
  - cbn in Hl. injection Hl as ->. cbn. by rewrite !decide_False.
  - cbn in Hl. cbn [insert list_insert list_find].
    destruct (decide (P y)); [done|]. f_equal. by apply IH.
Qed.

Lemma list_find_snoc_miss (l : list A) x :
  ¬ P x → list_find P (l ++ [x]) = list_find P l.
Proof.
  intros Hx. destruct (list_find P l) as [[i y]|] eqn:E.
  - by apply list_find_app_l.
  - rewrite list_find_app_r by done. cbn. by rewrite decide_False.
Qed.

Lemma list_find_snoc_hit (l : list A) x :
  list_find P l = None → P x → list_find P (l ++ [x]) = Some (length l, x).
Proof.
  intros E Hx. rewrite list_find_app_r by done. cbn. by rewrite decide_True.
Qed.

End FindUpdate.

(** ** Menu repository: further behaviour of [save], [findById] and
       [toggleAvailability] *)

(** X13. [save(item)] leaves the answers for every other id as they were:
    [findById] of an id different from the item's gives what it gave before. *)
Theorem menu_save_frame (item : MenuItem.t) (id' : string) (repo : SqliteMenuRepository.t) :
  id' ≠ MenuItem.id item →
  SqliteMenuRepository.findById id' (SqliteMenuRepository.save item repo)
  = SqliteMenuRepository.findById id' repo.
Proof.
  intros N. unfold SqliteMenuRepository.findById, JsArray.find. f_equal.
  destruct (list_find (λ m, MenuItem.id m = MenuItem.id item)
              (SqliteMenuRepository._items repo)) as [[i old]|] eqn:E.
  - rewrite (save_present _ _ _ _ E).
    apply list_find_Some in E as (Hi & Ei & _).
    eapply list_find_insert_miss; [done| |]; congruence.
  - rewrite (save_absent _ _ E). apply list_find_snoc_miss. congruence.
Qed.

Lemma menu_save_frame_witness :
  "m1" ≠ MenuItem.id demo_pizza_back
  ∧ SqliteMenuRepository.findById "m1" (SqliteMenuRepository.save demo_pizza_back demo_repo)
    = SqliteMenuRepository.findById "m1" demo_repo.
Proof.
  assert (H : "m1" ≠ MenuItem.id demo_pizza_back) by discriminate.
  split; [exact H | exact (menu_save_frame demo_pizza_back "m1" demo_repo H)].
Defined.

Lemma menu_save_ids item repo :
  MenuItem.id <$> SqliteMenuRepository._items (SqliteMenuRepository.save item repo) =
  if decide (MenuItem.id item ∈ MenuItem.id <$> SqliteMenuRepository._items repo)
  then MenuItem.id <$> SqliteMenuRepository._items repo
  else (MenuItem.id <$> SqliteMenuRepository._items repo) ++ [MenuItem.id item].
Proof.
  destruct (list_find (λ m, MenuItem.id m = MenuItem.id item)
              (SqliteMenuRepository._items repo)) as [[i old]|] eqn:E.
  - rewrite (save_present _ _ _ _ E).
    apply list_find_Some in E as (Hi & Ei & _).
    rewrite decide_True by (apply list_elem_of_fmap; exists old;
                            eauto using list_elem_of_lookup_2).
    rewrite list_fmap_insert. apply list_insert_id.
    by rewrite list_lookup_fmap, Hi, <- Ei.
  - rewrite (save_absent _ _ E). apply list_find_None in E.
    rewrite decide_False, fmap_app; [done|].
    intros (m & Em & Hm)%list_elem_of_fmap.
    eapply Forall_forall in E; [|exact Hm]. cbn in E. congruence.
Qed.

(** X14. [save] never duplicates an id and never moves a record: the list
    of stored ids is unchanged when the item's id was stored, and gets the
    id at its end otherwise, so ids that were pairwise distinct stay so.
    Saving the same item twice is the same as saving it once. *)
Theorem menu_save_keeps_ids (item : MenuItem.t) (repo : SqliteMenuRepository.t) :
  let ids := MenuItem.id <$> SqliteMenuRepository.findAll repo in
  let ids' := MenuItem.id <$> SqliteMenuRepository.findAll (SqliteMenuRepository.save item repo) in
  (MenuItem.id item ∈ ids → ids' = ids)
  ∧ (MenuItem.id item ∉ ids → ids' = ids ++ [MenuItem.id item])
  ∧ (NoDup ids → NoDup ids')
  ∧ SqliteMenuRepository.save item (SqliteMenuRepository.save item repo)
    = SqliteMenuRepository.save item repo.
Proof.
  cbv zeta. unfold SqliteMenuRepository.findAll. rewrite menu_save_ids. split_and!.
  - intros H. by rewrite decide_True.
  - intros H. by rewrite decide_False.
  - intros H. case_decide as I; [done|].
    apply NoDup_app. split_and!; [done| |apply NoDup_singleton].
    by intros x Hx ->%list_elem_of_singleton.
  - destruct (list_find (λ m, MenuItem.id m = MenuItem.id item)
                (SqliteMenuRepository._items repo)) as [[i old]|] eqn:E.
    + pose proof (list_find_insert_hit _ _ _ _ item E eq_refl) as E'.
      rewrite <- (save_present _ _ _ _ E) in E'.
      destruct (SqliteMenuRepository.save item repo) as [l'] eqn:S.
      unfold SqliteMenuRepository.save at 1, JsArray.findIndex.
      cbn [SqliteMenuRepository._items] in *. rewrite E'.
      destruct (Z.leb_spec 0 (Z.of_nat i)); [|lia]. rewrite Nat2Z.id. f_equal.
      apply list_insert_id. by apply list_find_Some in E' as (? & _).
    + pose proof (list_find_snoc_hit _ _ item E eq_refl) as E'.
      rewrite <- (save_absent _ _ E) in E'.
      destruct (SqliteMenuRepository.save item repo) as [l'] eqn:S.
      unfold SqliteMenuRepository.save at 1, JsArray.findIndex.
      cbn [SqliteMenuRepository._items] in *. rewrite E'.
      destruct (Z.leb_spec 0 (Z.of_nat (length (SqliteMenuRepository._items repo)))); [|lia].
      rewrite Nat2Z.id. f_equal.
      apply list_insert_id. by apply list_find_Some in E' as (? & _).
Qed.

Lemma menu_repo_eq (r1 r2 : SqliteMenuRepository.t) :
  SqliteMenuRepository._items r1 = SqliteMenuRepository._items r2 → r1 = r2.
Proof. destruct r1, r2. cbn. by intros ->. Qed.

Lemma toggle_present id available repo i old :
  list_find (λ m, MenuItem.id m = id) (SqliteMenuRepository._items repo) = Some (i, old) →
  SqliteMenuRepository._items (SqliteMenuRepository.toggleAvailability id available repo) =
  <[i := SqliteMenuRepository.set_available available old]> (SqliteMenuRepository._items repo).
Proof.
  intros E. unfold SqliteMenuRepository.toggleAvailability. rewrite E. cbn.
  apply alter_insert. by apply list_find_Some in E as (? & _).
Qed.

Lemma toggle_absent id available repo :
  list_find (λ m, MenuItem.id m = id) (SqliteMenuRepository._items repo) = None →
  SqliteMenuRepository.toggleAvailability id available repo = repo.
Proof. intros E. unfold SqliteMenuRepository.toggleAvailability. by rewrite E. Qed.

Lemma toggle_find id available repo mid :
  list_find (λ m, MenuItem.id m = mid)
    (SqliteMenuRepository._items (SqliteMenuRepository.toggleAvailability id available repo)) =
  if decide (mid = id)
  then prod_map Datatypes.id (SqliteMenuRepository.set_available available) <$>
         list_find (λ m, MenuItem.id m = mid) (SqliteMenuRepository._items repo)
  else list_find (λ m, MenuItem.id m = mid) (SqliteMenuRepository._items repo).
Proof.
  destruct (list_find (λ m, MenuItem.id m = id) (SqliteMenuRepository._items repo))
    as [[i old]|] eqn:E.
  - rewrite (toggle_present _ _ _ _ _ E). destruct (decide (mid = id)) as [->|N].
    + rewrite E. cbn. eapply list_find_insert_hit; [done|].
      by apply list_find_Some in E as (_ & ? & _).
    + apply list_find_Some in E as (Hi & Ei & _).
      eapply list_find_insert_miss; [done|cbn; congruence..].
  - rewrite toggle_absent by done. destruct (decide (mid = id)) as [->|N]; [|done].
    by rewrite E.
Qed.

(** X15. [toggleAvailability(id, available)] sets the flag of the first
    stored item with that id and nothing else: [findById(id)] then gives
    that item with the new flag, every other id answers as before, the
    stored ids are the same in the same order, an unknown id changes
    nothing, and doing it twice is doing it once. *)
Theorem toggleAvailability_sets_flag (id : string) (available : bool)
    (repo : SqliteMenuRepository.t) :
  let repo' := SqliteMenuRepository.toggleAvailability id available repo in
  SqliteMenuRepository.findById id repo'
    = SqliteMenuRepository.set_available available <$> SqliteMenuRepository.findById id repo
  ∧ (∀ id', id' ≠ id →
       SqliteMenuRepository.findById id' repo' = SqliteMenuRepository.findById id' repo)
  ∧ MenuItem.id <$> SqliteMenuRepository.findAll repo'
    = MenuItem.id <$> SqliteMenuRepository.findAll repo
  ∧ (SqliteMenuRepository.findById id repo = None → repo' = repo)
  ∧ SqliteMenuRepository.toggleAvailability id available repo' = repo'.
Proof.
  cbv zeta. unfold SqliteMenuRepository.findById, SqliteMenuRepository.findAll, JsArray.find.
  split_and!.
  - rewrite toggle_find, decide_True by done.
    by destruct (list_find _ (SqliteMenuRepository._items repo)) as [[i old]|].
  - intros id' N. by rewrite toggle_find, decide_False.
  - destruct (list_find (λ m, MenuItem.id m = id) (SqliteMenuRepository._items repo))
      as [[i old]|] eqn:E.
    + rewrite (toggle_present _ _ _ _ _ E). rewrite list_fmap_insert.
      apply list_insert_id. apply list_find_Some in E as (Hi & _).
      by rewrite list_lookup_fmap, Hi.
    + by rewrite toggle_absent.
  - intros H. apply toggle_absent.
    by destruct (list_find _ (SqliteMenuRepository._items repo)) as [[i old]|].
  - destruct (list_find (λ m, MenuItem.id m = id) (SqliteMenuRepository._items repo))
      as [[i old]|] eqn:E.
    + pose proof (toggle_find id available repo id) as F.
      rewrite decide_True, E in F by done. cbn in F.
      pose proof (toggle_present id available _ _ _ F) as T.
      rewrite (toggle_present _ _ _ _ _ E) in T.
      rewrite list_insert_insert_eq in T.
      change (SqliteMenuRepository.set_available available
                (SqliteMenuRepository.set_available available old))
        with (SqliteMenuRepository.set_available available old) in T.
      rewrite <- (toggle_present _ _ _ _ _ E) in T.
      by apply menu_repo_eq.
    + rewrite (toggle_absent _ _ _ E). apply (toggle_absent _ _ _ E).
Qed.

Lemma toggled_step_simple id repo total ci :
  SimplePricingStrategy.step
    (SqliteMenuRepository.findAll (SqliteMenuRepository.toggleAvailability id false repo))
    total ci =
  if decide (CartItem.menuItemId ci = id) then total
  else SimplePricingStrategy.step (SqliteMenuRepository.findAll repo) total ci.
Proof.
  unfold SimplePricingStrategy.step, JsArray.find, SqliteMenuRepository.findAll.
  rewrite toggle_find. destruct (decide (CartItem.menuItemId ci = id)) as [E|N]; [|done].
  by destruct (list_find _ (SqliteMenuRepository._items repo)) as [[i old]|].
Qed.

Lemma toggled_step_combo id repo acc ci :
  ComboPricingStrategy.step
    (SqliteMenuRepository.findAll (SqliteMenuRepository.toggleAvailability id false repo))
    acc ci =
  if decide (CartItem.menuItemId ci = id) then acc
  else ComboPricingStrategy.step (SqliteMenuRepository.findAll repo) acc ci.
Proof.
  destruct acc as [total qtySum].
  unfold ComboPricingStrategy.step, JsArray.find, SqliteMenuRepository.findAll.
  rewrite toggle_find. destruct (decide (CartItem.menuItemId ci = id)) as [E|N]; [|done].
  by destruct (list_find _ (SqliteMenuRepository._items repo)) as [[i old]|].
Qed.

Lemma foldl_skip {A B} (f g : A → B → A) (P : B → Prop) `{!∀ b, Decision (P b)}
    (l : list B) (a : A) :
  (∀ a b, f a b = if decide (P b) then g a b else a) →
  foldl f a l = foldl g a (filter P l).
Proof.
  intros Hf. revert a. induction l as [|b l IH]; intros a; [done|].
  cbn [foldl]. rewrite Hf, filter_cons. destruct (decide (P b)); [|apply IH].
  cbn [foldl]. apply IH.
Qed.

(** X16. Once an item is switched off with [toggleAvailability(id, false)],
    cart lines for that id no longer count: on the repository's menu both
    strategies return what they returned before for the cart without
    those lines. *)
Theorem toggled_off_item_not_charged (id : string) (items : list CartItem.t)
    (repo : SqliteMenuRepository.t) :
  let menu := SqliteMenuRepository.findAll repo in
  let menu' := SqliteMenuRepository.findAll
                 (SqliteMenuRepository.toggleAvailability id false repo) in
  let others := filter (λ ci, CartItem.menuItemId ci ≠ id) items in
  SimplePricingStrategy.computeTotal items menu'
    = SimplePricingStrategy.computeTotal others menu
  ∧ ComboPricingStrategy.computeTotal items menu'
    = ComboPricingStrategy.computeTotal others menu.
Proof.
  cbv zeta. split.
  - unfold SimplePricingStrategy.computeTotal. f_equal. apply foldl_skip.
    intros total ci. rewrite toggled_step_simple.
    destruct (decide (CartItem.menuItemId ci = id)).
    + by rewrite decide_False by tauto.
    + by rewrite decide_True.
  - unfold ComboPricingStrategy.computeTotal, ComboPricingStrategy.loop.
    rewrite (foldl_skip _ (ComboPricingStrategy.step (SqliteMenuRepository.findAll repo))
               (λ ci, CartItem.menuItemId ci ≠ id)); [done|].
    intros acc ci. rewrite toggled_step_combo.
    destruct (decide (CartItem.menuItemId ci = id)).
    + by rewrite decide_False by tauto.
    + by rewrite decide_True.
Qed.

(** ** Order repository *)

Lemma order_repo_eq (r1 r2 : SqliteOrderRepository.t) :
  SqliteOrderRepository._orders r1 = SqliteOrderRepository._orders r2 → r1 = r2.
Proof. destruct r1, r2. cbn. by intros ->. Qed.

Lemma order_save_absent order repo :
  list_find (λ o, Order.id o = Order.id order) (SqliteOrderRepository._orders repo) = None →
  SqliteOrderRepository._orders (SqliteOrderRepository.save order repo) =
  SqliteOrderRepository._orders repo ++ [order].
Proof.
  intros H. unfold SqliteOrderRepository.save, JsArray.findIndex. by rewrite H.
Qed.

Lemma order_save_present order repo i old :
  list_find (λ o, Order.id o = Order.id order) (SqliteOrderRepository._orders repo)
    = Some (i, old) →
  SqliteOrderRepository._orders (SqliteOrderRepository.save order repo) =
  <[i := order]> (SqliteOrderRepository._orders repo).
Proof.
  intros H. unfold SqliteOrderRepository.save, JsArray.findIndex. rewrite H.
  destruct (Z.leb_spec 0 (Z.of_nat i)); [|lia]. cbn. by rewrite Nat2Z.id.
Qed.

Lemma order_save_find order repo :
  list_find (λ o, Order.id o = Order.id order)
    (SqliteOrderRepository._orders (SqliteOrderRepository.save order repo)) =
  Some (match list_find (λ o, Order.id o = Order.id order)
                (SqliteOrderRepository._orders repo) with
        | Some (i, _) => i
        | None => length (SqliteOrderRepository._orders repo)
        end, order).
Proof.
  destruct (list_find (λ o, Order.id o = Order.id order)
              (SqliteOrderRepository._orders repo)) as [[i old]|] eqn:E.
  - rewrite (order_save_present _ _ _ _ E). by eapply list_find_insert_hit.
  - rewrite (order_save_absent _ _ E). by apply list_find_snoc_hit.
Qed.

Lemma order_save_find_other order repo id' :
  id' ≠ Order.id order →
  list_find (λ o, Order.id o = id')
    (SqliteOrderRepository._orders (SqliteOrderRepository.save order repo)) =
  list_find (λ o, Order.id o = id') (SqliteOrderRepository._orders repo).
Proof.
  intros N.
  destruct (list_find (λ o, Order.id o = Order.id order)
              (SqliteOrderRepository._orders repo)) as [[i old]|] eqn:E.
  - rewrite (order_save_present _ _ _ _ E).
    apply list_find_Some in E as (Hi & Ei & _).
    eapply list_find_insert_miss; [done| |]; congruence.
  - rewrite (order_save_absent _ _ E). apply list_find_snoc_miss. congruence.
Qed.

Lemma order_save_ids order repo :
  Order.id <$> SqliteOrderRepository._orders (SqliteOrderRepository.save order repo) =
  if decide (Order.id order ∈ Order.id <$> SqliteOrderRepository._orders repo)
  then Order.id <$> SqliteOrderRepository._orders repo
  else (Order.id <$> SqliteOrderRepository._orders repo) ++ [Order.id order].
Proof.
  destruct (list_find (λ o, Order.id o = Order.id order)
              (SqliteOrderRepository._orders repo)) as [[i old]|] eqn:E.
  - rewrite (order_save_present _ _ _ _ E).
    apply list_find_Some in E as (Hi & Ei & _).
    rewrite decide_True by (apply list_elem_of_fmap; exists old;
                            eauto using list_elem_of_lookup_2).
    rewrite list_fmap_insert. apply list_insert_id.
    by rewrite list_lookup_fmap, Hi, <- Ei.
  - rewrite (order_save_absent _ _ E). apply list_find_None in E.
    rewrite decide_False, fmap_app; [done|].
    intros (m & Em & Hm)%list_elem_of_fmap.
    eapply Forall_forall in E; [|exact Hm]. cbn in E. congruence.
Qed.

Lemma order_save_NoDup order repo :
  NoDup (Order.id <$> SqliteOrderRepository._orders repo) →
  NoDup (Order.id <$> SqliteOrderRepository._orders (SqliteOrderRepository.save order repo)).
Proof.
  intros H. rewrite order_save_ids. case_decide as I; [done|].
  apply NoDup_app. split_and!; [done| |apply NoDup_singleton].
  by intros x Hx ->%list_elem_of_singleton.
Qed.

(** X17. [SqliteOrderRepository.save] is an upsert by id with a read-back:
    after [save(order)], [findById(order.id)] gives [order] and every other
    id answers as before; an order with a new id is added at the end, one
    with a stored id takes the place of the stored one and the number of
    orders stays. *)
Theorem order_save_upsert (order : Order.t) (repo : SqliteOrderRepository.t) :
  let repo' := SqliteOrderRepository.save order repo in
  SqliteOrderRepository.findById (Order.id order) repo' = Some order
  ∧ (∀ id', id' ≠ Order.id order →
       SqliteOrderRepository.findById id' repo' = SqliteOrderRepository.findById id' repo)
  ∧ (SqliteOrderRepository.findById (Order.id order) repo = None →
       SqliteOrderRepository.findAll repo' = SqliteOrderRepository.findAll repo ++ [order])
  ∧ (is_Some (SqliteOrderRepository.findById (Order.id order) repo) →
       length (SqliteOrderRepository.findAll repo')
       = length (SqliteOrderRepository.findAll repo)).
Proof.
  cbv zeta. unfold SqliteOrderRepository.findById, SqliteOrderRepository.findAll, JsArray.find.
  split_and!.
  - by rewrite order_save_find.
  - intros id' N. by rewrite order_save_find_other.
  - intros H. apply order_save_absent.
    by destruct (list_find _ (SqliteOrderRepository._orders repo)) as [[i old]|].
  - intros [o H].
    destruct (list_find (λ o, Order.id o = Order.id order)
                (SqliteOrderRepository._orders repo)) as [[i old]|] eqn:E; [|done].
    rewrite (order_save_present _ _ _ _ E). apply length_insert.
Qed.

Lemma NoDup_fmap_elem_inj {A B} (f : A → B) (l : list A) x y :
  NoDup (f <$> l) → x ∈ l → y ∈ l → f x = f y → x = y.
Proof.
  intros Hnd [i Hi]%list_elem_of_lookup [j Hj]%list_elem_of_lookup Hf.
  assert (i = j) as ->; [|congruence].
  eapply NoDup_lookup; [exact Hnd| |].
  - by rewrite list_lookup_fmap, Hi.
  - by rewrite list_lookup_fmap, Hj, Hf.
Qed.

(** The repository after [save] calls on the empty repository, in order. *)
Lemma saves_NoDup (orders : list Order.t) :
  NoDup (Order.id <$> SqliteOrderRepository._orders
           (foldl (λ r o, SqliteOrderRepository.save o r) SqliteOrderRepository.new orders)).
Proof.
  induction orders as [|o orders IH] using rev_ind.
  - apply NoDup_nil_2.
  - rewrite foldl_app. cbn [foldl]. by apply order_save_NoDup.
Qed.

(** X18. In a repository filled by [save] calls, ids never repeat, and a
    saved order is listed under its own status only: [findByStatus] of the
    order's status holds it, and an order with that id found under any
    status is that order. *)
Theorem saved_order_under_its_status (orders : list Order.t) (order : Order.t) :
  let repo := foldl (λ r o, SqliteOrderRepository.save o r) SqliteOrderRepository.new orders in
  let repo' := SqliteOrderRepository.save order repo in
  NoDup (Order.id <$> SqliteOrderRepository.findAll repo')
  ∧ order ∈ SqliteOrderRepository.findByStatus (Order.status order) repo'
  ∧ (∀ status o, o ∈ SqliteOrderRepository.findByStatus status repo' →
                 Order.id o = Order.id order → o = order ∧ status = Order.status order).
Proof.
  cbv zeta. unfold SqliteOrderRepository.findByStatus, SqliteOrderRepository.findAll.
  set (repo := foldl _ _ orders).
  assert (Hnd : NoDup (Order.id <$> SqliteOrderRepository._orders
                         (SqliteOrderRepository.save order repo))).
  { apply order_save_NoDup, saves_NoDup. }
  assert (Hin : order ∈ SqliteOrderRepository._orders (SqliteOrderRepository.save order repo)).
  { pose proof (order_save_find order repo) as (Hi & _)%list_find_Some.
    by eapply list_elem_of_lookup_2. }
  split_and!.
  - exact Hnd.
  - apply list_elem_of_filter. by split.
  - intros status o [Hs Ho]%list_elem_of_filter Hid.
    assert (o = order) as -> by (eapply NoDup_fmap_elem_inj; eauto).
    by split.
Qed.

Lemma update_present id status repo i old :
  list_find (λ o, Order.id o = id) (SqliteOrderRepository._orders repo) = Some (i, old) →
  SqliteOrderRepository._orders (SqliteOrderRepository.updateStatus id status repo) =
  <[i := Order.with_status status old]> (SqliteOrderRepository._orders repo).
Proof.
  intros E. unfold SqliteOrderRepository.updateStatus. rewrite E. cbn.
  apply alter_insert. by apply list_find_Some in E as (? & _).
Qed.

Lemma update_absent id status repo :
  list_find (λ o, Order.id o = id) (SqliteOrderRepository._orders repo) = None →
  SqliteOrderRepository.updateStatus id status repo = repo.
Proof. intros E. unfold SqliteOrderRepository.updateStatus. by rewrite E. Qed.

Lemma update_find id status repo oid :
  list_find (λ o, Order.id o = oid)
    (SqliteOrderRepository._orders (SqliteOrderRepository.updateStatus id status repo)) =
  if decide (oid = id)
  then prod_map Datatypes.id (Order.with_status status) <$>
         list_find (λ o, Order.id o = oid) (SqliteOrderRepository._orders repo)
  else list_find (λ o, Order.id o = oid) (SqliteOrderRepository._orders repo).
Proof.
  destruct (list_find (λ o, Order.id o = id) (SqliteOrderRepository._orders repo))
    as [[i old]|] eqn:E.
  - rewrite (update_present _ _ _ _ _ E). destruct (decide (oid = id)) as [->|N].
    + rewrite E. cbn. eapply list_find_insert_hit; [done|].
      by apply list_find_Some in E as (_ & ? & _).
    + apply list_find_Some in E as (Hi & Ei & _).
      eapply list_find_insert_miss; [done|cbn; congruence..].
  - rewrite update_absent by done. destruct (decide (oid = id)) as [->|N]; [|done].
    by rewrite E.
Qed.

(** X19. [updateStatus(id, status)] writes [status] into the first stored
    order with that id, whatever its status was and whatever [status] is
    (the linear order of [advanceStatus] is not consulted), and changes
    nothing else: the other fields of that order, the other orders, the ids
    and their order stay; an unknown id changes nothing. *)
Theorem updateStatus_sets_status (id status : string) (repo : SqliteOrderRepository.t) :
  let repo' := SqliteOrderRepository.updateStatus id status repo in
  SqliteOrderRepository.findById id repo'
    = Order.with_status status <$> SqliteOrderRepository.findById id repo
  ∧ (∀ id', id' ≠ id →
       SqliteOrderRepository.findById id' repo' = SqliteOrderRepository.findById id' repo)
  ∧ Order.id <$> SqliteOrderRepository.findAll repo'
    = Order.id <$> SqliteOrderRepository.findAll repo
  ∧ (SqliteOrderRepository.findById id repo = None → repo' = repo).
Proof.
  cbv zeta. unfold SqliteOrderRepository.findById, SqliteOrderRepository.findAll, JsArray.find.
  split_and!.
  - rewrite update_find, decide_True by done.
    by destruct (list_find _ (SqliteOrderRepository._orders repo)) as [[i old]|].
  - intros id' N. by rewrite update_find, decide_False.
  - destruct (list_find (λ o, Order.id o = id) (SqliteOrderRepository._orders repo))
      as [[i old]|] eqn:E.
    + rewrite (update_present _ _ _ _ _ E). rewrite list_fmap_insert.
      apply list_insert_id. apply list_find_Some in E as (Hi & _).
      by rewrite list_lookup_fmap, Hi.
    + by rewrite update_absent.
  - intros H. apply update_absent.
    by destruct (list_find _ (SqliteOrderRepository._orders repo)) as [[i old]|].
Qed.

(** ** The "Next status" button *)

(** X20. Clicking "Next status" on a stored order advances it by one step
    of the linear order, stores the advanced order under the same id
    without adding or touching any other order, and notifies the observers
    with the order's id and its new status. *)
Theorem advance_click_stores_and_notifies {W} (order : Order.t)
    (orderRepo : SqliteOrderRepository.t) (orderSubject : OrderSubject W) (w : W) :
  SqliteOrderRepository.findById (Order.id order) orderRepo = Some order →
  let '(order', orderRepo', delivery) := advance_click order orderRepo orderSubject w in
  order' = Order.with_status (next_status (Order.status order)) order
  ∧ SqliteOrderRepository.findById (Order.id order) orderRepo' = Some order'
  ∧ (∀ id', id' ≠ Order.id order →
       SqliteOrderRepository.findById id' orderRepo'
       = SqliteOrderRepository.findById id' orderRepo)
  ∧ length (SqliteOrderRepository.findAll orderRepo')
    = length (SqliteOrderRepository.findAll orderRepo)
  ∧ delivery = notify (Order.id order) (next_status (Order.status order)) orderSubject w.
Proof.
  intros H. unfold advance_click. rewrite advanceStatus_next.
  set (order' := Order.with_status _ order).
  assert (Hid : Order.id order' = Order.id order) by done.
  unfold SqliteOrderRepository.findById, SqliteOrderRepository.findAll, JsArray.find in *.
  split_and!; [done| | | |done].
  - rewrite <- Hid. by rewrite order_save_find.
  - intros id' N. rewrite order_save_find_other; [done | by rewrite Hid].
  - destruct (list_find (λ o, Order.id o = Order.id order')
                (SqliteOrderRepository._orders orderRepo)) as [[i old]|] eqn:E.
    + rewrite (order_save_present _ _ _ _ E). apply length_insert.
    + rewrite Hid in E. by rewrite E in H.
Qed.

Lemma advance_click_stores_and_notifies_witness :
  let orderRepo := SqliteOrderRepository.save (demo_order "RECEIVED") SqliteOrderRepository.new in
  SqliteOrderRepository.findById "o1" orderRepo = Some (demo_order "RECEIVED")
  ∧ advance_click (demo_order "RECEIVED") orderRepo demo_subject_quiet []
    = (demo_order "PREPARING",
       SqliteOrderRepository.mk [demo_order "PREPARING"],
       ([(2, "o1", "PREPARING")], (Normal tt, ["Order o1 -> PREPARING"])))
  ∧ SqliteOrderRepository.findById "o1" (SqliteOrderRepository.mk [demo_order "PREPARING"])
    = Some (demo_order "PREPARING").
Proof.
  cbv zeta. split_and!; [reflexivity..|].
  exact (proj1 (proj2 (advance_click_stores_and_notifies (demo_order "RECEIVED")
           (SqliteOrderRepository.save (demo_order "RECEIVED") SqliteOrderRepository.new)
           demo_subject_quiet [] eq_refl))).
Defined.

(** ** The menu page's groups *)

Lemma group_fold (g0 : MenuGroups) (l : list MenuItem.t) :
  let g := foldl group_step g0 l in
  group_HALAL g = group_HALAL g0 ++ filter (λ i, "HALAL" ∈ MenuItem.tags i) l
  ∧ group_VEG g = group_VEG g0 ++
      filter (λ i, ("HALAL" ∉ MenuItem.tags i) ∧ "VEG" ∈ MenuItem.tags i) l
  ∧ group_VEGAN g = group_VEGAN g0 ++
      filter (λ i, ("HALAL" ∉ MenuItem.tags i) ∧ ("VEG" ∉ MenuItem.tags i)
                   ∧ "VEGAN" ∈ MenuItem.tags i) l
  ∧ group_OTHER g = group_OTHER g0 ++
      filter (λ i, ("HALAL" ∉ MenuItem.tags i) ∧ ("VEG" ∉ MenuItem.tags i)
                   ∧ ("VEGAN" ∉ MenuItem.tags i)) l.
Proof.
  cbv zeta. revert g0. induction l as [|x l IH]; intros g0.
  - cbn [foldl]. rewrite !filter_nil, !app_nil_r. done.
  - cbn [foldl]. destruct (IH (group_step g0 x)) as (H1 & H2 & H3 & H4).
    rewrite H1, H2, H3, H4. clear IH H1 H2 H3 H4. rewrite !filter_cons.
    unfold group_step, JsArray.push.
    repeat case_bool_decide; repeat case_decide; try tauto;
      cbn [group_HALAL group_VEG group_VEGAN group_OTHER];
      rewrite <- ?app_assoc; done.
Qed.

Lemma four_way_partition (l : list MenuItem.t) :
  filter (λ i, "HALAL" ∈ MenuItem.tags i) l
  ++ filter (λ i, ("HALAL" ∉ MenuItem.tags i) ∧ "VEG" ∈ MenuItem.tags i) l
  ++ filter (λ i, ("HALAL" ∉ MenuItem.tags i) ∧ ("VEG" ∉ MenuItem.tags i)
                  ∧ "VEGAN" ∈ MenuItem.tags i) l
  ++ filter (λ i, ("HALAL" ∉ MenuItem.tags i) ∧ ("VEG" ∉ MenuItem.tags i)
                  ∧ ("VEGAN" ∉ MenuItem.tags i)) l
  ≡ₚ l.
Proof.
  induction l as [|x l IH]; [done|]. rewrite !filter_cons.
  repeat case_decide; try tauto;
    (etrans; [|apply Permutation_skip, IH]); solve_Permutation.
Qed.

(** X21. The menu page shows every available item in exactly one group and
    no item that is not available: put together, the four groups are the
    available items (the same items, each as often as it is stored).  An
    item tagged HALAL is under HALAL whatever else it carries, VEG comes
    before VEGAN, and OTHER holds the items with none of the three tags;
    inside a group the items keep the menu's order. *)
Theorem menu_groups_partition (menuRepo : SqliteMenuRepository.t) :
  let g := menu_groups menuRepo in
  let all := menu_shown menuRepo in
  group_HALAL g ++ group_VEG g ++ group_VEGAN g ++ group_OTHER g ≡ₚ all
  ∧ (∀ i, i ∈ all ↔ i ∈ SqliteMenuRepository.findAll menuRepo ∧ MenuItem.available i = true)
  ∧ group_HALAL g = filter (λ i, "HALAL" ∈ MenuItem.tags i) all
  ∧ group_VEG g = filter (λ i, ("HALAL" ∉ MenuItem.tags i) ∧ "VEG" ∈ MenuItem.tags i) all
  ∧ group_VEGAN g = filter (λ i, ("HALAL" ∉ MenuItem.tags i) ∧ ("VEG" ∉ MenuItem.tags i)
                                 ∧ "VEGAN" ∈ MenuItem.tags i) all
  ∧ group_OTHER g = filter (λ i, ("HALAL" ∉ MenuItem.tags i) ∧ ("VEG" ∉ MenuItem.tags i)
                                 ∧ ("VEGAN" ∉ MenuItem.tags i)) all.
Proof.
  cbv zeta. unfold menu_groups.
  destruct (group_fold
              {| group_HALAL := []; group_VEG := []; group_VEGAN := []; group_OTHER := [] |}
              (menu_shown menuRepo)) as (H1 & H2 & H3 & H4).
  cbn [group_HALAL group_VEG group_VEGAN group_OTHER app] in *.
  rewrite H1, H2, H3, H4. split_and!; try done.
  - apply four_way_partition.
  - intros i. unfold menu_shown. rewrite list_elem_of_filter. tauto.
Qed.

Example demo_menu_groups :
  menu_groups (SqliteMenuRepository.new
     [MenuItem.mk "m1" "Burger" 3.5 "MAIN" ["HALAL"] true;
      MenuItem.mk "m2" "Pizza Slice" 2.0 "MAIN" [] false;
      MenuItem.mk "m4" "Salad Bowl" 1.8 "SIDE" ["VEGAN"; "VEG"] true;
      MenuItem.mk "m5" "Coca-Cola" 1.0 "DRINK" [] true])
  = {| group_HALAL := [MenuItem.mk "m1" "Burger" 3.5 "MAIN" ["HALAL"] true];
       group_VEG := [MenuItem.mk "m4" "Salad Bowl" 1.8 "SIDE" ["VEGAN"; "VEG"] true];
       group_VEGAN := [];
       group_OTHER := [MenuItem.mk "m5" "Coca-Cola" 1.0 "DRINK" [] true] |}.
Proof. reflexivity. Qed.

(** ** The "Place order" button *)

Example demo_place_order :
  place_order None 1000 1001 demo_app [] =
  ({| cart := Cart.new; menuRepo := demo_repo;
      orderRepo := SqliteOrderRepository.mk
        [Order.mk "o1001" "u1" [CartItem.mk "m1" 4; CartItem.mk "m2" 2]
                  "RECEIVED" 1801000 14];
      orderSubject := demo_subject_quiet |},
   ["Order o1001 -> RECEIVED"],
   [(2, "o1001", "RECEIVED")],
   Normal "Order placed! Your order id is o1001.").
Proof. reflexivity. Qed.

(** X22. Placing an order.  With an empty cart the click changes nothing
    and reports "Cart is empty.".  Otherwise the order stored under the id
    ["o" + now2] is in status RECEIVED, belongs to the current student,
    holds the cart's lines, carries the Simple total of those lines on the
    repository's menu, and is picked up at [pickup], by default thirty
    minutes after [now1]; every other stored order and the menu are
    untouched, and the observers are notified with that id and RECEIVED.
    The cart is emptied and the success message shown only when [notify]
    returns: when an observer throws, the order stays stored, the cart
    keeps its lines and the exception leaves the handler. *)
Theorem place_order_effects {W} (pickup : option Z) (now1 now2 : Z) (app : App W) (w : W) :
  (Cart.items (cart app) = [] →
     place_order pickup now1 now2 app w = (app, w, [], Normal "Cart is empty."))
  ∧ (Cart.items (cart app) ≠ [] →
     ∃ app' w' calls result total,
       place_order pickup now1 now2 app w = (app', w', calls, result)
       ∧ SimplePricingStrategy.computeTotal (Cart.items (cart app))
           (SqliteMenuRepository.findAll (menuRepo app)) = Normal total
       ∧ let order := Order.mk ("o" +:+ pretty now2) "u1" (Cart.items (cart app))
                               OrderStatus.RECEIVED
                               (default (now1 + 1800000)%Z pickup) total in
         SqliteOrderRepository.findById (Order.id order) (orderRepo app') = Some order
         ∧ (∀ id', id' ≠ Order.id order →
              SqliteOrderRepository.findById id' (orderRepo app')
              = SqliteOrderRepository.findById id' (orderRepo app))
         ∧ menuRepo app' = menuRepo app
         ∧ orderSubject app' = orderSubject app
         ∧ notify (Order.id order) OrderStatus.RECEIVED (orderSubject app) w
           = (calls, (match result with Normal _ => Normal tt | Throw e => Throw e end, w'))
         ∧ match result with
           | Normal message =>
               cart app' = Cart.new
               ∧ message = "Order placed! Your order id is " +:+ ("o" +:+ pretty now2) +:+ "."
           | Throw _ => cart app' = cart app
           end).
Proof.
  unfold place_order, Cart.getItems. split.
  - intros ->. done.
  - intros Hne. rewrite decide_False by (by destruct (Cart.items (cart app))).
    cbn [pricing_computeTotal SimplePricingStrategy.new SimplePricingStrategy.computeTotal].
    set (total := foldl _ _ _).
    set (order := Order.mk _ _ _ _ _ total).
    assert (Horder : order = Order.mk ("o" +:+ pretty now2) "u1" (Cart.items (cart app))
                               OrderStatus.RECEIVED (default (now1 + 1800000)%Z pickup) total).
    { unfold order. by destruct pickup. }
    assert (Hid : Order.id order = "o" +:+ pretty now2) by done.
    assert (Hst : Order.status order = OrderStatus.RECEIVED) by done.
    rewrite Hst, Hid. clearbody order.
    destruct (notify ("o" +:+ pretty now2) OrderStatus.RECEIVED (orderSubject app) w)
      as [calls [[[]|e] w']] eqn:N.
    + eexists _, w', calls, (Normal _), total. split; [done|]. split; [done|].
      cbv zeta. cbn [Order.id]. rewrite <- Horder, <- Hid.
      cbn [orderRepo menuRepo orderSubject cart].
      unfold SqliteOrderRepository.findById, JsArray.find.
      split_and!; try done; try (by rewrite Hid).
      * by rewrite order_save_find.
      * intros id' Hid'. by rewrite order_save_find_other.
    + eexists _, w', calls, (Throw e), total. split; [done|]. split; [done|].
      cbv zeta. cbn [Order.id]. rewrite <- Horder, <- Hid.
      cbn [orderRepo menuRepo orderSubject cart].
      unfold SqliteOrderRepository.findById, JsArray.find.
      split_and!; try done; try (by rewrite Hid).
      * by rewrite order_save_find.
      * intros id' Hid'. by rewrite order_save_find_other.
Qed.

Example demo_place_order_observer_throws :
  place_order (Some 5000%Z) 1000 1001 demo_app_failing [] =
  ({| cart := addItems demo_calls Cart.new; menuRepo := demo_repo;
      orderRepo := SqliteOrderRepository.mk
        [Order.mk "o1001" "u1" [CartItem.mk "m1" 4; CartItem.mk "m2" 2]
                  "RECEIVED" 5000 14];
      orderSubject := demo_subject_failing_first |},
   [],
   [(1, "o1001", "RECEIVED")],
   Throw "boom").
Proof. reflexivity. Qed.

(** A filled cart placed as an order, and a click on an empty cart. *)
Lemma place_order_effects_witness :
  Cart.items (cart demo_app) ≠ []
  ∧ (∃ app' w' calls result total,
       place_order None 1000 1001 demo_app [] = (app', w', calls, result)
       ∧ SimplePricingStrategy.computeTotal (Cart.items (cart demo_app))
           (SqliteMenuRepository.findAll (menuRepo demo_app)) = Normal total)
  ∧ Cart.items (cart (W := list string)
       {| cart := Cart.new; menuRepo := demo_repo;
          orderRepo := SqliteOrderRepository.new; orderSubject := demo_subject_quiet |}) = []
  ∧ place_order None 1000 1001
      {| cart := Cart.new; menuRepo := demo_repo;
         orderRepo := SqliteOrderRepository.new; orderSubject := demo_subject_quiet |} []
    = ({| cart := Cart.new; menuRepo := demo_repo;
          orderRepo := SqliteOrderRepository.new; orderSubject := demo_subject_quiet |},
       [], [], Normal "Cart is empty.").
Proof.
  assert (H : Cart.items (cart demo_app) ≠ []) by discriminate.
  destruct (proj2 (place_order_effects None 1000 1001 demo_app []) H)
    as (app' & w' & calls & result & total & E & T & _).
  split_and!; [exact H | by exists app', w', calls, result, total | reflexivity |].
  exact (proj1 (place_order_effects None 1000 1001
           {| cart := Cart.new; menuRepo := demo_repo;
              orderRepo := SqliteOrderRepository.new; orderSubject := demo_subject_quiet |} [])
           eq_refl).
Defined.

(** ** Cart: one entry per id, whatever is called *)

Lemma removeItem_NoDup id c :
  NoDup (CartItem.menuItemId <$> Cart.items c) →
  NoDup (CartItem.menuItemId <$> Cart.items (Cart.removeItem id c)).
Proof.
  unfold Cart.removeItem. cbn [Cart.items]. intros H.
  eapply sublist_NoDup; [exact H | apply fmap_sublist, sublist_filter].
Qed.

(** X23. Whatever sequence of [addItem], [removeItem] and [clear] calls is
    made on a new cart, the cart never holds two entries with the same
    [menuItemId]. *)
Theorem cart_one_entry_per_id (calls : list cart_call) :
  NoDup (CartItem.menuItemId <$> Cart.items (cart_calls calls Cart.new)).
Proof.
  unfold cart_calls. induction calls as [|call calls IH] using rev_ind.
  - apply NoDup_nil_2.
  - rewrite foldl_app. cbn [foldl]. destruct call as [id qty|id|].
    + by apply addItem_NoDup.
    + by apply removeItem_NoDup.
    + apply NoDup_nil_2.
Qed.
